(** * AIMagna frontend: workflow event handling, approval card, progress card

    A shallow embedding of the three React components that carry the
    run state machine on the observer side:

    - [HITLApprovalCard]  (components/Workflow/HITLApprovalCard.tsx)
    - [ETLProgressCard]   (components/Workflow/ETLProgressCard.tsx)
    - [ChatWindow]        (components/ChatInterface/ChatWindow.tsx)

    React state is modelled by explicit state passing: a component is a
    record of its [useState]/[useRef] cells, an event handler is a function
    from the record to the record.  JavaScript numbers that carry counts or
    percentages are integers ([Z]); [undefined] is [None]. *)

From Stdlib Require Import ZArith QArith Lia.
From stdpp Require Import base list strings gmap pretty.

Close Scope Q_scope.
Open Scope string_scope.
Open Scope nat_scope.

(** ** JavaScript helpers *)

(** [a || b] on possibly-undefined strings: the empty string is falsy. *)
Definition js_or_string (a : option string) (b : option string) : option string :=
  match a with
  | Some x => if bool_decide (x = "") then b else a
  | None => b
  end.

(** A value of TypeScript type [any], told apart as far as [||] and React's
    rendering of a child tell values apart: a falsy value that is not a
    string ([undefined], [null], [0], [NaN], [false]); a string; a truthy
    value that React renders as a child and the text it shows (a number, a
    list of strings; nothing for [true]); a truthy value that is not a
    valid React child (an object, or a list that holds one, such as the
    [detail] list of a validation reply). *)
Inductive Any :=
  | any_falsy
  | any_string (s : string)
  | any_child (shown : string)
  | any_object.

Global Instance Any_eq_dec : EqDecision Any.
Proof. solve_decision. Defined.

Definition truthy (a : Any) : bool :=
  match a with
  | any_falsy => false
  | any_string s => negb (bool_decide (s = ""))
  | any_child _ => true
  | any_object => true
  end.

(** [a || b] *)
Definition js_or (a b : Any) : Any := if truthy a then a else b.

(** [n || 0] on a possibly-undefined number. *)
Definition js_or_zero (n : option Z) : Z :=
  match n with
  | Some x => x
  | None => 0%Z
  end.

(** * HITLApprovalCard *)

Module HITLApprovalCard.

(** [status: 'pending' | 'approved' | 'rejected'] *)
Inductive Status := pending | approved | rejected.

Global Instance Status_eq_dec : EqDecision Status.
Proof. solve_decision. Defined.

(** [interface MappingCandidate]; the confidence is a display value that no
    handler reads; it is kept as a rational. *)
Record MappingCandidate := {
  mapping_id : string;
  source_table : string;
  source_column : string;
  target_table : string;
  target_column : string;
  confidence : Q;
  rationale : string;
  status : Status;
}.

(** [{ ...m, status: st }] *)
Definition with_status (m : MappingCandidate) (st : Status) : MappingCandidate :=
  {| mapping_id := mapping_id m;
     source_table := source_table m;
     source_column := source_column m;
     target_table := target_table m;
     target_column := target_column m;
     confidence := confidence m;
     rationale := rationale m;
     status := st |}.

(** The cells of the component: the [mappings] prop and the five
    [useState] hooks.  The [error] cell is declared [string | null], but
    [handleSubmit] stores in it a value of type [any]: [None] is [null],
    [Some a] the value that [setError] was given. *)
Record Card := {
  mappings : list MappingCandidate;
  expanded : bool;
  localMappings : list MappingCandidate;
  submitting : bool;
  error : option Any;
  selectedIds : gset string;
}.

Definition setLocalMappings (f : list MappingCandidate → list MappingCandidate)
    (c : Card) : Card :=
  {| mappings := mappings c; expanded := expanded c;
     localMappings := f (localMappings c);
     submitting := submitting c; error := error c;
     selectedIds := selectedIds c |}.

Definition setSelectedIds (f : gset string → gset string) (c : Card) : Card :=
  {| mappings := mappings c; expanded := expanded c;
     localMappings := localMappings c;
     submitting := submitting c; error := error c;
     selectedIds := f (selectedIds c) |}.

Definition setSubmitting (b : bool) (c : Card) : Card :=
  {| mappings := mappings c; expanded := expanded c;
     localMappings := localMappings c;
     submitting := b; error := error c;
     selectedIds := selectedIds c |}.

Definition setError (e : option Any) (c : Card) : Card :=
  {| mappings := mappings c; expanded := expanded c;
     localMappings := localMappings c;
     submitting := submitting c; error := e;
     selectedIds := selectedIds c |}.

(** [useState(mappings)] and friends on mount. *)
Definition mount (ms : list MappingCandidate) : Card :=
  {| mappings := ms; expanded := true; localMappings := ms;
     submitting := false; error := None; selectedIds := ∅ |}.

(** The effect on [[mappings]]: a new prop value replaces the local copy. *)
Definition propsChanged (ms : list MappingCandidate) (c : Card) : Card :=
  {| mappings := ms; expanded := expanded c; localMappings := ms;
     submitting := submitting c; error := error c;
     selectedIds := selectedIds c |}.

Definition handleApprove (mappingId : string) : Card → Card :=
  setLocalMappings (λ prev,
    (λ m, if bool_decide (mapping_id m = mappingId)
          then with_status m approved else m) <$> prev).

Definition handleReject (mappingId : string) : Card → Card :=
  setLocalMappings (λ prev,
    (λ m, if bool_decide (mapping_id m = mappingId)
          then with_status m rejected else m) <$> prev).

Definition handleApproveAll : Card → Card :=
  setLocalMappings (λ prev, (λ m, with_status m approved) <$> prev).

Definition handleRejectAll : Card → Card :=
  setLocalMappings (λ prev, (λ m, with_status m rejected) <$> prev).

Definition handleToggleSelect (mappingId : string) : Card → Card :=
  setSelectedIds (λ prev,
    if bool_decide (mappingId ∈ prev)
    then prev ∖ {[ mappingId ]}
    else prev ∪ {[ mappingId ]}).

Definition handleSelectAll (c : Card) : Card :=
  if bool_decide (size (selectedIds c) = length (localMappings c))
  then setSelectedIds (λ _, ∅) c
  else setSelectedIds (λ _, list_to_set (mapping_id <$> localMappings c)) c.

(** The updater closes over the [selectedIds] of the render it was created
    in, and the selection is cleared afterwards. *)
Definition handleApproveSelected (c : Card) : Card :=
  let sel := selectedIds c in
  setSelectedIds (λ _, ∅)
    (setLocalMappings (λ prev,
       (λ m, if bool_decide (mapping_id m ∈ sel)
             then with_status m approved else m) <$> prev) c).

Definition handleRejectSelected (c : Card) : Card :=
  let sel := selectedIds c in
  setSelectedIds (λ _, ∅)
    (setLocalMappings (λ prev,
       (λ m, if bool_decide (mapping_id m ∈ sel)
             then with_status m rejected else m) <$> prev) c).

(** One element of the [approvals] array posted to [/hitl/approve/:runId]. *)
Record Approval := {
  a_mapping_id : string;
  a_status : Status;
}.

(** [localMappings.map(m => ({ mapping_id, status: m.status === 'pending'
    ? 'approved' : m.status }))] *)
Definition approvals (ms : list MappingCandidate) : list Approval :=
  (λ m, {| a_mapping_id := mapping_id m;
           a_status := if bool_decide (status m = pending)
                       then approved else status m |}) <$> ms.

(** What [api.post] did: it resolved, or it threw.  The handler catches
    [err: any]: of an [err] that is not [null] or [undefined] it reads
    [err.response?.data?.detail] and [err.message], both of type [any];
    on a [null] or [undefined] [err] the read of [err.response] throws
    inside the [catch] block. *)
Inductive PostResult :=
  | Resolved
  | Threw (detail : Any) (message : Any)
  | ThrewNullish.

(** The outcome of one [handleSubmit]: the card afterwards, the request
    body that was posted, and whether [onApprovalComplete] was called. *)
Record Submitted := {
  card_after : Card;
  posted : list Approval;
  approvalComplete : bool;
}.

(** In the last case the [TypeError] leaves the [catch] block before
    [setError] is called; the [finally] block still runs. *)
Definition handleSubmit (res : PostResult) (c : Card) : Submitted :=
  let c1 := setError None (setSubmitting true c) in
  let body := approvals (localMappings c) in
  match res with
  | Resolved =>
      {| card_after := setSubmitting false c1;
         posted := body; approvalComplete := true |}
  | Threw detail message =>
      let msg := js_or (js_or detail message)
                   (any_string "Failed to submit approvals") in
      {| card_after := setSubmitting false (setError (Some msg) c1);
         posted := body; approvalComplete := false |}
  | ThrewNullish =>
      {| card_after := setSubmitting false c1;
         posted := body; approvalComplete := false |}
  end.

(** [{error && <Alert ...>{error}</Alert>}]: the alert is rendered when the
    cell holds a truthy value, and React throws while rendering it when
    that value is not a valid child. *)
Definition alertShown (c : Card) : bool :=
  match error c with
  | Some a => truthy a
  | None => false
  end.

Definition renderThrows (c : Card) : bool :=
  bool_decide (error c = Some any_object).

(** The text in the alert, when the render succeeds and shows one. *)
Definition alertText (c : Card) : option string :=
  match error c with
  | Some (any_string s) => if bool_decide (s = "") then None else Some s
  | Some (any_child shown) => Some shown
  | _ => None
  end.

(** The alert's close button: [onClose={() => setError(null)}]. *)
Definition closeAlert : Card → Card := setError None.

(** Values derived on every render. *)
Definition pendingCount (c : Card) : nat :=
  length (filter (λ m, status m = pending) (localMappings c)).
Definition approvedCount (c : Card) : nat :=
  length (filter (λ m, status m = approved) (localMappings c)).
Definition rejectedCount (c : Card) : nat :=
  length (filter (λ m, status m = rejected) (localMappings c)).
Definition allReviewed (c : Card) : bool :=
  bool_decide (pendingCount c = 0).

Inductive Color := color_error | color_warning | color_success.

Definition getConfidenceColor (c : Q) : Color :=
  if Qlt_le_dec c (7 # 10) then color_error
  else if Qlt_le_dec c (9 # 10) then color_warning
  else color_success.

(** The submit button: [disabled={submitting || !allReviewed}]. *)
Definition submitDisabled (c : Card) : bool :=
  submitting c || negb (allReviewed c).

(** A click on the submit button reaches [handleSubmit] only when the
    button is enabled. *)
Definition clickSubmit (res : PostResult) (c : Card) : option Submitted :=
  if submitDisabled c then None else Some (handleSubmit res c).

(** The operations that write [localMappings] from the card's buttons. *)
Inductive Operation :=
  | ApproveOne (mappingId : string)
  | RejectOne (mappingId : string)
  | ApproveAll
  | RejectAll
  | ApproveSelected
  | RejectSelected.

Definition perform (op : Operation) : Card → Card :=
  match op with
  | ApproveOne i => handleApprove i
  | RejectOne i => handleReject i
  | ApproveAll => handleApproveAll
  | RejectAll => handleRejectAll
  | ApproveSelected => handleApproveSelected
  | RejectSelected => handleRejectSelected
  end.

(** A per-candidate decision, the argument of [handleApprove]/[handleReject]. *)
Inductive Decision := Approve | Reject.

Definition decide_one (d : Decision) (mappingId : string) : Card → Card :=
  match d with
  | Approve => handleApprove mappingId
  | Reject => handleReject mappingId
  end.

End HITLApprovalCard.

(** * ETLProgressCard *)

Module ETLProgressCard.

(** [status: 'pending' | 'running' | 'completed' | 'error'] *)
Inductive StepStatus := pending | running | completed | error.

Global Instance StepStatus_eq_dec : EqDecision StepStatus.
Proof. solve_decision. Defined.

(** [interface ETLStep] *)
Record ETLStep := {
  name : string;
  label : string;
  status : StepStatus;
  message : option string;
  progress : option Z;
}.

(** One entry of the [ETL_STEPS] table. *)
Record StepInfo := {
  info_name : string;
  info_label : string;
}.

Definition ETL_STEPS : list StepInfo := [
  {| info_name := "download"; info_label := "Download from GCS" |};
  {| info_name := "profiler"; info_label := "Data Profiling" |};
  {| info_name := "staging"; info_label := "Staging to BigQuery" |};
  {| info_name := "mapper"; info_label := "Schema Mapping" |};
  {| info_name := "hitl"; info_label := "Human Approval" |};
  {| info_name := "create_tables"; info_label := "Create Target Tables" |};
  {| info_name := "transform"; info_label := "Generate Transforms" |};
  {| info_name := "execute"; info_label := "Execute Transforms" |};
  {| info_name := "validator"; info_label := "Data Validation" |};
  {| info_name := "feedback"; info_label := "Capture Feedback" |};
  {| info_name := "cleanup"; info_label := "Cleanup" |}
].

(** The step names of the program, in table order. *)
Definition step_names : list string := info_name <$> ETL_STEPS.

(** The step list as the specification words it (section 4.1). *)
Definition spec_step_names : list string :=
  ["download"; "profile"; "stage"; "map"; "hitl"; "create_tables";
   "transform"; "execute"; "validate"; "feedback"; "cleanup"].

(** The props the progress bar and the step list read. *)
Record Props := {
  runId : string;
  overallProgress : option Z;
  currentStep : string;
  run_status : string;
  steps : list ETLStep;
}.

(** The hook cells behind [smoothProgress]: the [maxProgressRef] ref, the
    [useMemo] cache (the dependency it was computed for and the value), and
    the dependency the reset effect last ran for. *)
Record Hooks := {
  maxProgressRef : Z;
  memo : option (option Z * Z);
  effect_runId : option string;
}.

(** First render: [useRef(0)], nothing memoised, no effect run yet. *)
Definition mount : Hooks :=
  {| maxProgressRef := 0; memo := None; effect_runId := None |}.

(** [Math.max(0, Math.min(100, overallProgress || 0))] *)
Definition clamp (p : option Z) : Z :=
  Z.max 0 (Z.min 100 (js_or_zero p)).

(** The body of the memoised callback: it raises the ref when the clamped
    value is larger and returns the ref. *)
Definition compute_smoothProgress (p : option Z) (h : Hooks) : Z * Hooks :=
  let newProgress := clamp p in
  let m := if (newProgress >? maxProgressRef h)%Z
           then newProgress else maxProgressRef h in
  (m, {| maxProgressRef := m; memo := Some (p, m);
         effect_runId := effect_runId h |}).

(** [React.useMemo(..., [overallProgress])]: the callback runs on the first
    render and whenever the dependency differs from the previous render. *)
Definition smoothProgress (p : option Z) (h : Hooks) : Z * Hooks :=
  match memo h with
  | Some (dep, v) =>
      if bool_decide (dep = p) then (v, h) else compute_smoothProgress p h
  | None => compute_smoothProgress p h
  end.

(** [useEffect(() => { maxProgressRef.current = 0 }, [runId])]: runs after
    the render, on mount and whenever [runId] differs. *)
Definition resetEffect (r : string) (h : Hooks) : Hooks :=
  if bool_decide (effect_runId h = Some r) then h
  else {| maxProgressRef := 0; memo := memo h; effect_runId := Some r |}.

(** One render of the card followed by its effects: the percentage put on
    screen and the hook cells afterwards. *)
Definition render (pr : Props) (h : Hooks) : Z * Hooks :=
  let '(shown, h1) := smoothProgress (overallProgress pr) h in
  (shown, resetEffect (runId pr) h1).

(** The percentages shown over a sequence of renders. *)
Fixpoint shown (prs : list Props) (h : Hooks) : list Z :=
  match prs with
  | [] => []
  | pr :: rest => let '(v, h') := render pr h in v :: shown rest h'
  end.

(** [arr.findIndex(s => s.name === x)], -1 when absent. *)
Fixpoint findIndex (x : string) (l : list StepInfo) : Z :=
  match l with
  | [] => (-1)%Z
  | s :: rest =>
      if bool_decide (info_name s = x) then 0%Z
      else let i := findIndex x rest in
           if (i <? 0)%Z then (-1)%Z else (i + 1)%Z
  end.

Definition getStepStatus (pr : Props) (stepName : string) : StepStatus :=
  match List.find (λ s, bool_decide (name s = stepName)) (steps pr) with
  | Some step => status step
  | None =>
      let stepIndex := findIndex stepName ETL_STEPS in
      let currentIndex := findIndex (currentStep pr) ETL_STEPS in
      if (stepIndex <? currentIndex)%Z then completed
      else if (stepIndex =? currentIndex)%Z then
        (if bool_decide (run_status pr = "failed") then error else running)
      else pending
  end.

Definition getStepMessage (pr : Props) (stepName : string) : option string :=
  List.find (λ s, bool_decide (name s = stepName)) (steps pr) ≫= message.

Definition isComplete (pr : Props) : bool :=
  bool_decide (run_status pr = "completed") || bool_decide (run_status pr = "success").

Definition isFailed (pr : Props) : bool :=
  bool_decide (run_status pr = "failed") || bool_decide (run_status pr = "error").

Definition getCurrentStageName (pr : Props) : string :=
  match List.find (λ s, bool_decide (info_name s = currentStep pr)) ETL_STEPS with
  | Some step => info_label step
  | None => currentStep pr
  end.

(** The label of the header chip; [isHitlWaiting] is the prop of that
    name. *)
Definition chipLabel (isHitlWaiting : bool) (pr : Props) : string :=
  if isComplete pr then "Completed"
  else if isFailed pr then "Failed"
  else if isHitlWaiting then "Waiting"
  else "Running".

End ETLProgressCard.

(** * ChatWindow *)

Module ChatWindow.

Import ETLProgressCard.

(** [interface HITLMapping] has the fields of the card's
    [MappingCandidate]. *)
Definition HITLMapping : Type := HITLApprovalCard.MappingCandidate.

(** The [currentRun] object of the store. *)
Module Run.
Record t := {
  run_id : string;
  folder_path : option string;
  gcs_uri : option string;
  status : string;
  current_step : string;
  progress : option Z;
  source_type : option string;
  error : option string;
}.
End Run.

(** The object literal handed to [updateCurrentRun]: [None] is a key that
    is not written, [Some v] a key written with [v] (which for [progress]
    and [error] may itself be [undefined]). *)
Module Patch.
Record t := {
  status : option string;
  current_step : option string;
  progress : option (option Z);
  error : option (option string);
}.

(** [{ ...run, ...updates }] *)
Definition spread (updates : t) (run : Run.t) : Run.t :=
  {| Run.run_id := Run.run_id run;
     Run.folder_path := Run.folder_path run;
     Run.gcs_uri := Run.gcs_uri run;
     Run.status := default (Run.status run) (status updates);
     Run.current_step := default (Run.current_step run) (current_step updates);
     Run.progress := default (Run.progress run) (progress updates);
     Run.source_type := Run.source_type run;
     Run.error := default (Run.error run) (error updates) |}.
End Patch.

(** The [data] payload of an event, with the keys the handler reads. *)
Module Data.
Record t := {
  mappings : option (list HITLMapping);
  transformations : option (list string);
  reviewed : option Z;
  pending : option Z;
}.
Definition empty : t :=
  {| mappings := None; transformations := None;
     reviewed := None; pending := None |}.
End Data.

(** A [WorkflowUpdate] message as parsed from the socket.  The type is
    declared in [types], which is not among the sources; these are the
    fields the handler reads. *)
Module Update.
Record t := {
  type : string;
  step : string;
  status : string;
  message : option string;
  progress : option Z;
  error : option string;
  data : option Data.t;
}.
End Update.

(** The store slice and the component's own cells.  [readyTimers] counts
    the [setTimeout] callbacks that are scheduled and have not fired. *)
Record State := {
  currentRun : option Run.t;
  etlSteps : list ETLStep;
  pipelineDialogOpen : bool;
  hitlMappings : list HITLMapping;
  showHitlApproval : bool;
  hitlReady : bool;
  workflowCompleted : bool;
  workflowMappings : list HITLMapping;
  workflowTransformations : list string;
  workflowCompletedRef : bool;
  readyTimers : nat;
}.

Definition setCurrentRun (r : option Run.t) (s : State) : State :=
  {| currentRun := r; etlSteps := etlSteps s;
     pipelineDialogOpen := pipelineDialogOpen s;
     hitlMappings := hitlMappings s; showHitlApproval := showHitlApproval s;
     hitlReady := hitlReady s; workflowCompleted := workflowCompleted s;
     workflowMappings := workflowMappings s;
     workflowTransformations := workflowTransformations s;
     workflowCompletedRef := workflowCompletedRef s;
     readyTimers := readyTimers s |}.

Definition setETLSteps (l : list ETLStep) (s : State) : State :=
  {| currentRun := currentRun s; etlSteps := l;
     pipelineDialogOpen := pipelineDialogOpen s;
     hitlMappings := hitlMappings s; showHitlApproval := showHitlApproval s;
     hitlReady := hitlReady s; workflowCompleted := workflowCompleted s;
     workflowMappings := workflowMappings s;
     workflowTransformations := workflowTransformations s;
     workflowCompletedRef := workflowCompletedRef s;
     readyTimers := readyTimers s |}.

Definition setHitlMappings (l : list HITLMapping) (s : State) : State :=
  {| currentRun := currentRun s; etlSteps := etlSteps s;
     pipelineDialogOpen := pipelineDialogOpen s;
     hitlMappings := l; showHitlApproval := showHitlApproval s;
     hitlReady := hitlReady s; workflowCompleted := workflowCompleted s;
     workflowMappings := workflowMappings s;
     workflowTransformations := workflowTransformations s;
     workflowCompletedRef := workflowCompletedRef s;
     readyTimers := readyTimers s |}.

Definition setShowHitlApproval (b : bool) (s : State) : State :=
  {| currentRun := currentRun s; etlSteps := etlSteps s;
     pipelineDialogOpen := pipelineDialogOpen s;
     hitlMappings := hitlMappings s; showHitlApproval := b;
     hitlReady := hitlReady s; workflowCompleted := workflowCompleted s;
     workflowMappings := workflowMappings s;
     workflowTransformations := workflowTransformations s;
     workflowCompletedRef := workflowCompletedRef s;
     readyTimers := readyTimers s |}.

Definition setHitlReady (b : bool) (s : State) : State :=
  {| currentRun := currentRun s; etlSteps := etlSteps s;
     pipelineDialogOpen := pipelineDialogOpen s;
     hitlMappings := hitlMappings s; showHitlApproval := showHitlApproval s;
     hitlReady := b; workflowCompleted := workflowCompleted s;
     workflowMappings := workflowMappings s;
     workflowTransformations := workflowTransformations s;
     workflowCompletedRef := workflowCompletedRef s;
     readyTimers := readyTimers s |}.

Definition setWorkflowCompleted (b : bool) (s : State) : State :=
  {| currentRun := currentRun s; etlSteps := etlSteps s;
     pipelineDialogOpen := pipelineDialogOpen s;
     hitlMappings := hitlMappings s; showHitlApproval := showHitlApproval s;
     hitlReady := hitlReady s; workflowCompleted := b;
     workflowMappings := workflowMappings s;
     workflowTransformations := workflowTransformations s;
     workflowCompletedRef := workflowCompletedRef s;
     readyTimers := readyTimers s |}.

Definition setWorkflowMappings (l : list HITLMapping) (s : State) : State :=
  {| currentRun := currentRun s; etlSteps := etlSteps s;
     pipelineDialogOpen := pipelineDialogOpen s;
     hitlMappings := hitlMappings s; showHitlApproval := showHitlApproval s;
     hitlReady := hitlReady s; workflowCompleted := workflowCompleted s;
     workflowMappings := l;
     workflowTransformations := workflowTransformations s;
     workflowCompletedRef := workflowCompletedRef s;
     readyTimers := readyTimers s |}.

Definition setWorkflowTransformations (l : list string) (s : State) : State :=
  {| currentRun := currentRun s; etlSteps := etlSteps s;
     pipelineDialogOpen := pipelineDialogOpen s;
     hitlMappings := hitlMappings s; showHitlApproval := showHitlApproval s;
     hitlReady := hitlReady s; workflowCompleted := workflowCompleted s;
     workflowMappings := workflowMappings s;
     workflowTransformations := l;
     workflowCompletedRef := workflowCompletedRef s;
     readyTimers := readyTimers s |}.

(** [workflowCompletedRef.current = b] *)
Definition setWorkflowCompletedRef (b : bool) (s : State) : State :=
  {| currentRun := currentRun s; etlSteps := etlSteps s;
     pipelineDialogOpen := pipelineDialogOpen s;
     hitlMappings := hitlMappings s; showHitlApproval := showHitlApproval s;
     hitlReady := hitlReady s; workflowCompleted := workflowCompleted s;
     workflowMappings := workflowMappings s;
     workflowTransformations := workflowTransformations s;
     workflowCompletedRef := b;
     readyTimers := readyTimers s |}.

Definition setReadyTimers (n : nat) (s : State) : State :=
  {| currentRun := currentRun s; etlSteps := etlSteps s;
     pipelineDialogOpen := pipelineDialogOpen s;
     hitlMappings := hitlMappings s; showHitlApproval := showHitlApproval s;
     hitlReady := hitlReady s; workflowCompleted := workflowCompleted s;
     workflowMappings := workflowMappings s;
     workflowTransformations := workflowTransformations s;
     workflowCompletedRef := workflowCompletedRef s;
     readyTimers := n |}.

(** ** The store actions *)

(** [{ ...step, status, message }] *)
Definition with_status (st : StepStatus) (msg : option string)
    (e : ETLStep) : ETLStep :=
  {| name := name e; label := label e; status := st;
     message := msg; progress := progress e |}.

(** Modelled from the spec: [updateCurrentRun] of [stores/chatStore], which
    is not among the sources.  Section 3: a run is "patched, never
    replaced"; the keys of the patch overwrite those of the current run and
    every other field is kept.  Without a current run there is nothing to
    patch. *)
Definition updateCurrentRun (updates : Patch.t) (s : State) : State :=
  setCurrentRun (Patch.spread updates <$> currentRun s) s.

(** Modelled from the spec: [updateETLStep] of [stores/chatStore], which is
    not among the sources.  Section 3: [steps] is an ordered mapping from
    step name to a record with a status and a message; the record under the
    given name receives the status and the message, and no record is added,
    removed or moved. *)
Definition updateETLStep (stepName : string) (st : StepStatus)
    (msg : option string) (s : State) : State :=
  setETLSteps
    ((λ e, if bool_decide (name e = stepName) then with_status st msg e else e)
       <$> etlSteps s) s.

(** Modelled from the spec: [resetETLSteps] of [stores/chatStore], which is
    not among the sources.  Section 3: every step of the fixed list has a
    record, [pending] before the run has touched it. *)
Definition resetETLSteps (s : State) : State :=
  setETLSteps
    ((λ i, {| name := info_name i; label := info_label i; status := pending;
              message := None; progress := None |}) <$> ETL_STEPS) s.

(** ** The socket callback *)

(** What the callback closed over in the render that created it.  The
    callback reads these, not the cells themselves; only the ref is read
    live. *)
Record Rendered := {
  r_currentRun : option Run.t;
  r_etlSteps : list ETLStep;
  r_workflowCompleted : bool;
}.

(** The closure of a component that has rendered the state [s]. *)
Definition rendered (s : State) : Rendered :=
  {| r_currentRun := currentRun s;
     r_etlSteps := etlSteps s;
     r_workflowCompleted := workflowCompleted s |}.

Definition streq (a b : string) : bool := bool_decide (a = b).

(** Step status written once the completion latch is set. *)
Definition latchedStepStatus (st : string) : StepStatus :=
  if streq st "completed" then completed
  else if streq st "failed" || streq st "error" then error
  else running.

(** Step status written by a regular update. *)
Definition stepStatus (st : string) : StepStatus :=
  if streq st "completed" then completed
  else if streq st "failed" || streq st "error" then error
  else if streq st "started" || streq st "running" || streq st "waiting"
          || streq st "waiting_for_approval" then running
  else pending.

(** Run status written by a regular update. *)
Definition workflowStatus (u : Update.t) : string :=
  if streq (Update.status u) "completed" && streq (Update.type u) "workflow_update"
  then "running"
  else if streq (Update.status u) "failed" || streq (Update.status u) "error"
  then "failed"
  else "running".

(** [etlSteps.forEach(step => { if (pending or running)
    updateETLStep(step.name, 'completed') })] *)
Definition completeOpenSteps (seen : list ETLStep) (s : State) : State :=
  foldl (λ acc e,
           if bool_decide (status e = pending) || bool_decide (status e = running)
           then updateETLStep (name e) completed None acc
           else acc)
        s seen.

Definition clearHitl (s : State) : State :=
  setHitlReady false (setHitlMappings [] (setShowHitlApproval false s)).

(** The callback passed to [useWebSocket]. *)
Definition onMessage (v : Rendered) (update : Update.t) (s : State) : State :=
  match r_currentRun v with
  | None => s
  | Some _ =>
    if streq (Update.type update) "workflow_complete" then
      let s := setWorkflowCompletedRef true s in
      let s := setWorkflowCompleted true s in
      let s := completeOpenSteps (r_etlSteps v) s in
      let s := updateCurrentRun
                 {| Patch.status := Some "completed";
                    Patch.current_step := Some "completed";
                    Patch.progress := Some (Some 100%Z);
                    Patch.error := None |} s in
      clearHitl s
    else if workflowCompletedRef s || r_workflowCompleted v then
      updateETLStep (Update.step update)
        (latchedStepStatus (Update.status update)) (Update.message update) s
    else if streq (Update.type update) "hitl_approval_required" then
      let mappings := default [] (Update.data update ≫= Data.mappings) in
      let s := updateETLStep "hitl" running
                 (Some (pretty (length mappings) +:+ " mapping(s) awaiting approval")) s in
      let s := setHitlMappings mappings s in
      let s := setShowHitlApproval true s in
      setReadyTimers (S (readyTimers s)) s
    else
      let s :=
        match Update.data update ≫= Data.mappings with
        | Some ms =>
            if streq (Update.step update) "mapper"
               && streq (Update.status update) "completed"
            then setWorkflowMappings ms s else s
        | None => s
        end in
      let s :=
        match Update.data update ≫= Data.transformations with
        | Some ts =>
            if streq (Update.step update) "transform"
               && streq (Update.status update) "completed"
            then setWorkflowTransformations ts s else s
        | None => s
        end in
      let s :=
        match Update.data update with
        | Some d =>
            if streq (Update.type update) "workflow_complete" then
              let s := match Data.mappings d with
                       | Some ms => setWorkflowMappings ms s
                       | None => s
                       end in
              match Data.transformations d with
              | Some ts => setWorkflowTransformations ts s
              | None => s
              end
            else s
        | None => s
        end in
      let s :=
        if streq (Update.type update) "hitl_approval_complete"
           || streq (Update.type update) "hitl_complete"
        then clearHitl s else s in
      if streq (Update.type update) "hitl_progress" then
        let d := default Data.empty (Update.data update) in
        updateETLStep "hitl" running
          (Some (pretty (js_or_zero (Data.reviewed d)) +:+ " reviewed, "
                 +:+ pretty (js_or_zero (Data.pending d)) +:+ " remaining")) s
      else
        let s := updateCurrentRun
                   {| Patch.status := Some (workflowStatus update);
                      Patch.current_step := Some (Update.step update);
                      Patch.progress := Some (Update.progress update);
                      Patch.error := Some (Update.error update) |} s in
        updateETLStep (Update.step update)
          (stepStatus (Update.status update)) (Update.message update) s
  end.

(** Delivery of a message to a component whose callback is the one of the
    current render. *)
Definition deliver (update : Update.t) (s : State) : State :=
  onMessage (rendered s) update s.

(** The events of a run in arrival order, each with the closure of the
    callback that receives it. *)
Definition receive (evs : list (Rendered * Update.t)) (s : State) : State :=
  foldl (λ acc ev, onMessage ev.1 ev.2 acc) s evs.

(** The [setTimeout] callback of the approval request. *)
Definition readyTimerFires (s : State) : State :=
  match readyTimers s with
  | O => s
  | S n => setHitlReady true (setReadyTimers n s)
  end.

Definition handleHitlApprovalComplete (s : State) : State :=
  updateETLStep "hitl" completed
    (Some "Approvals submitted - pipeline continuing") (clearHitl s).

Definition handleGCSWorkflowStarted (runId folderPath : string)
    (s : State) : State :=
  let s := resetETLSteps s in
  let s := setHitlMappings [] s in
  let s := setShowHitlApproval false s in
  let s := setHitlReady false s in
  let s := setWorkflowCompleted false s in
  let s := setWorkflowMappings [] s in
  let s := setWorkflowTransformations [] s in
  let s := setWorkflowCompletedRef false s in
  setCurrentRun
    (Some {| Run.run_id := runId;
             Run.folder_path := Some folderPath;
             Run.gcs_uri := Some ("gs://" +:+ folderPath);
             Run.status := "running";
             Run.current_step := "initialized";
             Run.progress := Some 0%Z;
             Run.source_type := Some "gcs_folder";
             Run.error := None |}) s.

Definition isWorkflowActive (s : State) : bool :=
  match currentRun s with
  | Some r => negb (streq (Run.status r) "pending")
              && bool_decide (Run.source_type r = Some "gcs_folder")
  | None => false
  end.

Definition isWorkflowComplete (s : State) : bool :=
  match currentRun s with
  | Some r => streq (Run.status r) "completed" || streq (Run.status r) "success"
  | None => false
  end.

(** The props the window hands to the progress card, when it shows it. *)
Definition progressCardProps (s : State) : option Props :=
  match currentRun s with
  | Some r =>
      if isWorkflowActive s then
        Some {| runId := Run.run_id r;
                overallProgress := Run.progress r;
                currentStep := Run.current_step r;
                run_status := Run.status r;
                steps := etlSteps s |}
      else None
  | None => None
  end.

(** The run-level fields an observer of the window sees. *)
Definition runLevel (s : State) : option (string * string * option Z) :=
  (λ r, (Run.status r, Run.current_step r, Run.progress r)) <$> currentRun s.

(** The approval card is rendered under
    [showHitlApproval && hitlReady && hitlMappings.length > 0 && currentRun]. *)
Definition approvalCardShown (s : State) : bool :=
  showHitlApproval s && hitlReady s
  && bool_decide (0 < length (hitlMappings s))
  && match currentRun s with Some _ => true | None => false end.

(** The run id handed to the socket hook: [currentRun?.run_id || null]. *)
Definition socketRunId (s : State) : option string :=
  match currentRun s with
  | Some r => if bool_decide (Run.run_id r = "") then None else Some (Run.run_id r)
  | None => None
  end.

(** The [isHitlWaiting] prop of the progress card. *)
Definition isHitlWaiting (s : State) : bool :=
  showHitlApproval s && hitlReady s.

(** [const showLandingPage = !currentRun] *)
Definition showLandingPage (s : State) : bool :=
  match currentRun s with Some _ => false | None => true end.

End ChatWindow.

(** * useWebSocket *)

Module useWebSocket.

(** [WebSocket.readyState] *)
Inductive ReadyState := CONNECTING | OPEN | CLOSING | CLOSED.

Global Instance ReadyState_eq_dec : EqDecision ReadyState.
Proof. solve_decision. Defined.

(** A [WebSocket] object: the URL it was constructed with, its ready state
    and what has been sent on it. *)
Record Socket := {
  url : string;
  readyState : ReadyState;
  sent : list string;
}.

(** [socket.close()], as the browser defines it: a socket that is
    connecting or open starts closing, one that is closing or closed is
    left alone. *)
Definition close (k : Socket) : Socket :=
  match readyState k with
  | CONNECTING | OPEN => {| url := url k; readyState := CLOSING; sent := sent k |}
  | CLOSING | CLOSED => k
  end.

(** [socket.send(data)] *)
Definition send (data : string) (k : Socket) : Socket :=
  {| url := url k; readyState := readyState k; sent := (sent k ++ [data])%list |}.

Definition set_readyState (st : ReadyState) (k : Socket) : Socket :=
  {| url := url k; readyState := st; sent := sent k |}.

(** The cells of the hook.  [sockets] holds every socket the hook has
    constructed, in order of construction; [socketRef], [intervals] and
    [cleanup] name sockets by their position in it.  [intervals] are the
    sockets whose heartbeat interval is set, [cleanup] the socket of the
    cleanup function the last effect run returned, [deps] the [runId] that
    run saw, and [closingLogged] counts the log line of the branch that
    closes an existing socket. *)
Record Hook := {
  isConnected : bool;
  socketRef : option nat;
  sockets : list Socket;
  intervals : list nat;
  cleanup : option nat;
  deps : option (option string);
  closingLogged : nat;
}.

(** First render: [useState(false)], [useRef(null)], no effect run yet. *)
Definition initial : Hook :=
  {| isConnected := false; socketRef := None; sockets := []; intervals := [];
     cleanup := None; deps := None; closingLogged := 0 |}.

(** [import.meta.env.VITE_WS_URL || 'ws://localhost:8000'] *)
Definition WS_URL (VITE_WS_URL : option string) : string :=
  default "ws://localhost:8000"
    (js_or_string VITE_WS_URL (Some "ws://localhost:8000")).

(** [!runId] *)
Definition no_run (runId : option string) : bool :=
  match runId with
  | None => true
  | Some r => bool_decide (r = "")
  end.

(** The body of the effect on [[runId]]. *)
Definition effect (base : string) (runId : option string) (h : Hook) : Hook :=
  if no_run runId then
    {| isConnected := isConnected h; socketRef := socketRef h;
       sockets := sockets h; intervals := intervals h;
       cleanup := None; deps := Some runId;
       closingLogged := closingLogged h |}
  else
    let existing_open :=
      match socketRef h ≫= λ j, sockets h !! j with
      | Some k => bool_decide (readyState k = OPEN)
      | None => false
      end in
    let socks :=
      if existing_open
      then match socketRef h with
           | Some j => alter close j (sockets h)
           | None => sockets h
           end
      else sockets h in
    let socket := length socks in
    {| isConnected := isConnected h;
       socketRef := Some socket;
       sockets := (socks ++ [ {| url := base +:+ "/ws/" +:+ default "" runId;
                                 readyState := CONNECTING; sent := [] |} ])%list;
       intervals := socket :: intervals h;
       cleanup := Some socket;
       deps := Some runId;
       closingLogged := if existing_open then S (closingLogged h)
                        else closingLogged h |}.

(** The cleanup function the effect returned, if it returned one. *)
Definition runCleanup (h : Hook) : Hook :=
  match cleanup h with
  | None => h
  | Some socket =>
      {| isConnected := isConnected h;
         socketRef := None;
         sockets :=
           match sockets h !! socket with
           | Some k =>
               if bool_decide (readyState k = OPEN)
                  || bool_decide (readyState k = CONNECTING)
               then alter close socket (sockets h) else sockets h
           | None => sockets h
           end;
         intervals := filter (λ j, j ≠ socket) (intervals h);
         cleanup := None;
         deps := deps h;
         closingLogged := closingLogged h |}
  end.

(** A render with [runId] followed by its effects: on the first render and
    whenever [runId] differs from the last run, the previous cleanup runs
    and then the effect. *)
Definition commit (base : string) (runId : option string) (h : Hook) : Hook :=
  if bool_decide (deps h = Some runId) then h
  else effect base runId (runCleanup h).

Definition unmount (h : Hook) : Hook := runCleanup h.

(** [socket.onopen]: the browser has opened the connecting socket. *)
Definition onopen (socket : nat) (h : Hook) : Hook :=
  match sockets h !! socket with
  | Some k =>
      if bool_decide (readyState k = CONNECTING) then
        {| isConnected := true; socketRef := socketRef h;
           sockets := alter (set_readyState OPEN) socket (sockets h);
           intervals := intervals h; cleanup := cleanup h; deps := deps h;
           closingLogged := closingLogged h |}
      else h
  | None => h
  end.

(** [socket.onclose]: the browser has closed the socket. *)
Definition onclose (socket : nat) (h : Hook) : Hook :=
  match sockets h !! socket with
  | Some k =>
      if bool_decide (readyState k = CLOSED) then h
      else
        {| isConnected := false; socketRef := socketRef h;
           sockets := alter (set_readyState CLOSED) socket (sockets h);
           intervals := intervals h; cleanup := cleanup h; deps := deps h;
           closingLogged := closingLogged h |}
  | None => h
  end.

(** [socket.onerror] only logs. *)
Definition onerror (socket : nat) (h : Hook) : Hook := h.

(** The interval callback of a socket: a ping when the socket is open. *)
Definition heartbeat (socket : nat) (h : Hook) : Hook :=
  if bool_decide (socket ∈ intervals h) then
    match sockets h !! socket with
    | Some k =>
        if bool_decide (readyState k = OPEN) then
          {| isConnected := isConnected h; socketRef := socketRef h;
             sockets := alter (send "ping") socket (sockets h);
             intervals := intervals h; cleanup := cleanup h; deps := deps h;
             closingLogged := closingLogged h |}
        else h
    | None => h
    end
  else h.

(** [socket.onmessage]: the data is parsed and handed to the current
    callback; data that does not parse is dropped.  [parse] stands for
    [JSON.parse] followed by the reading of the fields, [callback] for
    [onMessageRef.current]. *)
Definition onmessage {A : Type} (parse : string → option ChatWindow.Update.t)
    (callback : ChatWindow.Update.t → A → A) (data : string) (a : A) : A :=
  match parse data with
  | Some update => callback update a
  | None => a
  end.

(** What happens to a mounted hook. *)
Inductive Event :=
  | Commit (runId : option string)
  | Unmount
  | Opened (socket : nat)
  | Closed (socket : nat)
  | Errored (socket : nat)
  | Tick (socket : nat).

Definition handle (base : string) (ev : Event) (h : Hook) : Hook :=
  match ev with
  | Commit runId => commit base runId h
  | Unmount => unmount h
  | Opened i => onopen i h
  | Closed i => onclose i h
  | Errored i => onerror i h
  | Tick i => heartbeat i h
  end.

Definition life (base : string) (evs : list Event) : Hook :=
  foldl (λ h ev, handle base ev h) initial evs.

(** The socket the hook currently refers to. *)
Definition current (h : Hook) : option Socket :=
  socketRef h ≫= λ i, sockets h !! i.

End useWebSocket.

(** * Definitions used by the statements *)

(** ** What the statements compare the code with *)

Module HITLApprovalCardSpec.

Import HITLApprovalCard.

(** The payload status of a candidate, from the words of the spec:
    a pending candidate is submitted as approved, a decided one as it is. *)
Definition submitted_status (st : Status) : Status :=
  match st with
  | pending => approved
  | approved => approved
  | rejected => rejected
  end.

(** The bulk handler for a decision on the selected candidates. *)
Definition decide_selected (d : Decision) : Card → Card :=
  match d with
  | Approve => handleApproveSelected
  | Reject => handleRejectSelected
  end.

(** The status a decision writes. *)
Definition decided (d : Decision) : Status :=
  match d with
  | Approve => approved
  | Reject => rejected
  end.

(** One click on a candidate's button for each id of a list, in order. *)
Definition decide_each (d : Decision) (ids : list string) (c : Card) : Card :=
  foldl (λ acc i, decide_one d i acc) c ids.

(** A sequence of operations on the card. *)
Definition perform_all (ops : list Operation) (c : Card) : Card :=
  foldl (λ acc op, perform op acc) c ops.

(** The ids of the local candidates, in table order. *)
Definition ids (c : Card) : list string := mapping_id <$> localMappings c.

(** A candidate that is pending afterwards was pending before and is
    untouched. *)
Definition kept_pending (m m' : MappingCandidate) : Prop :=
  status m' = pending → m' = m.

End HITLApprovalCardSpec.

Module ETLProgressCardSpec.

Import ETLProgressCard.

(** The clamped running maximum of a sequence of progress values, starting
    from [m]. *)
Fixpoint running_max (m : Z) (ps : list (option Z)) : list Z :=
  match ps with
  | [] => []
  | p :: rest => let m' := Z.max m (clamp p) in m' :: running_max m' rest
  end.

(** The hook cells agree with each other for the run [r]: the reset effect
    has run for [r], and the memoised value is the ref. *)
Definition InSync (r : string) (h : Hooks) : Prop :=
  effect_runId h = Some r
  ∧ ∃ dep, memo h = Some (dep, maxProgressRef h)
           ∧ (clamp dep ≤ maxProgressRef h)%Z.

(** The values the hook cells hold are percentages. *)
Definition in_range (h : Hooks) : Prop :=
  (0 ≤ maxProgressRef h ≤ 100)%Z
  ∧ ∀ dep v, memo h = Some (dep, v) → (0 ≤ v ≤ 100)%Z.

End ETLProgressCardSpec.

Module ChatWindowSpec.

Import ETLProgressCard ChatWindow.



(** The patch of the completion branch. *)
Definition completion : Patch.t :=
  {| Patch.status := Some "completed";
     Patch.current_step := Some "completed";
     Patch.progress := Some (Some 100%Z);
     Patch.error := None |}.


(** The patch of a regular update that reports no failure. *)
Definition progressing (u : Update.t) : Patch.t :=
  {| Patch.status := Some "running";
     Patch.current_step := Some (Update.step u);
     Patch.progress := Some (Update.progress u);
     Patch.error := Some (Update.error u) |}.

(** The latch is set and the run, if there is one, shows the completed
    triple. *)
Definition Latched (s : State) : Prop :=
  workflowCompletedRef s = true
  ∧ (runLevel s = None ∨ runLevel s = Some ("completed", "completed", Some 100%Z)).

(** What can happen to a window between two renders: a socket message
    handled by some closure, the timer of an approval request, the approval
    card reporting a successful submission. *)
Inductive Action :=
  | Message (v : Rendered) (u : Update.t)
  | ReadyTimer
  | ApprovalComplete.

Definition step (a : Action) (s : State) : State :=
  match a with
  | Message v u => onMessage v u s
  | ReadyTimer => readyTimerFires s
  | ApprovalComplete => handleHitlApprovalComplete s
  end.

Definition run (acts : list Action) (s : State) : State :=
  foldl (λ acc a, step a acc) s acts.

(** The patch of a regular update with run status [st]. *)
Definition regular (st : string) (u : Update.t) : Patch.t :=
  {| Patch.status := Some st;
     Patch.current_step := Some (Update.step u);
     Patch.progress := Some (Update.progress u);
     Patch.error := Some (Update.error u) |}.

(** The window wiring of the approval card: the card's submit button, with
    [onApprovalComplete={handleHitlApprovalComplete}]. *)
Definition submitApprovals (res : HITLApprovalCard.PostResult)
    (c : HITLApprovalCard.Card) (s : State) : HITLApprovalCard.Card * State :=
  match HITLApprovalCard.clickSubmit res c with
  | Some sub =>
      (HITLApprovalCard.card_after sub,
       if HITLApprovalCard.approvalComplete sub
       then handleHitlApprovalComplete s else s)
  | None => (c, s)
  end.

(** Whether the closure of a callback sees a run, and whether the
    callback takes the latched path. *)
Definition seen (v : Rendered) : bool :=
  match r_currentRun v with Some _ => true | None => false end.

Definition latched (v : Rendered) (s : State) : bool :=
  workflowCompletedRef s || r_workflowCompleted v.

(** The window shows the run that [handleGCSWorkflowStarted] was called
    for, in one of the three statuses the handler writes, and shows
    completed only with the latch set. *)
Definition Tracks (runId folderPath : string) (s : State) : Prop :=
  ∃ r, currentRun s = Some r
       ∧ Run.run_id r = runId
       ∧ Run.folder_path r = Some folderPath
       ∧ Run.gcs_uri r = Some ("gs://" +:+ folderPath)
       ∧ Run.source_type r = Some "gcs_folder"
       ∧ (Run.status r = "running" ∨ Run.status r = "failed"
          ∨ Run.status r = "completed")
       ∧ (Run.status r = "completed" →
          workflowCompletedRef s = true
          ∧ Run.progress r = Some 100%Z
          ∧ Run.current_step r = "completed").

End ChatWindowSpec.

Module useWebSocketSpec.

Import useWebSocket.

Definition closing_or_closed (k : Socket) : Prop :=
  readyState k = CLOSING ∨ readyState k = CLOSED.

Definition only_pings (k : Socket) : Prop :=
  Forall (λ m, m = "ping") (sent k).

(** What holds of the cells between any two events. *)
Record Inv (base : string) (h : Hook) : Prop := {
  inv_ref : socketRef h = cleanup h;
  inv_intervals : ∀ j, j ∈ intervals h → cleanup h = Some j;
  inv_others : ∀ i k, sockets h !! i = Some k → cleanup h ≠ Some i →
                      closing_or_closed k;
  inv_current : ∀ i, cleanup h = Some i →
                     ∃ k r, sockets h !! i = Some k
                            ∧ deps h = Some (Some r) ∧ r ≠ ""
                            ∧ url k = base +:+ "/ws/" +:+ r;
  inv_log : closingLogged h = 0;
  inv_sent : ∀ i k, sockets h !! i = Some k → only_pings k;
}.

(** The hook with another connection flag and socket table. *)
Definition with_sockets (b : bool) (l : list Socket) (h : Hook) : Hook :=
  {| isConnected := b; socketRef := socketRef h; sockets := l;
     intervals := intervals h; cleanup := cleanup h; deps := deps h;
     closingLogged := closingLogged h |}.

End useWebSocketSpec.

(** ** Concrete inputs *)

Module Samples.

Import ETLProgressCard ChatWindow.

(** A batch of three candidates, one in each status. *)
Definition candidate (i : string) (st : HITLApprovalCard.Status)
    : HITLApprovalCard.MappingCandidate :=
  {| HITLApprovalCard.mapping_id := i;
     HITLApprovalCard.source_table := "loans";
     HITLApprovalCard.source_column := "loans.amt";
     HITLApprovalCard.target_table := "fact_loan";
     HITLApprovalCard.target_column := "fact_loan.amount";
     HITLApprovalCard.confidence := 1 # 2;
     HITLApprovalCard.rationale := "";
     HITLApprovalCard.status := st |}.

Definition batch : list HITLApprovalCard.MappingCandidate :=
  [candidate "m1" HITLApprovalCard.pending;
   candidate "m2" HITLApprovalCard.approved;
   candidate "m3" HITLApprovalCard.rejected].

Definition frame (r : string) (p : option Z) : Props :=
  {| runId := r; overallProgress := p; currentStep := "";
     run_status := "running"; steps := [] |}.

Definition step_record (n : string) (st : StepStatus) (msg : option string)
    : ETLStep :=
  {| name := n; label := ""; status := st; message := msg; progress := None |}.

(** The card of a run whose mapper step has failed. *)
Definition mapper_failed : Props :=
  {| runId := "r"; overallProgress := Some 30%Z; currentStep := "mapper";
     run_status := "failed";
     steps := [step_record "download" completed None;
               step_record "mapper" error (Some "no schema")] |}.

(** A run started from an empty window, and some of its events. *)
Definition blank : State :=
  {| currentRun := None; etlSteps := []; pipelineDialogOpen := false;
     hitlMappings := []; showHitlApproval := false; hitlReady := false;
     workflowCompleted := false; workflowMappings := [];
     workflowTransformations := []; workflowCompletedRef := false;
     readyTimers := 0 |}.

Definition started : State := handleGCSWorkflowStarted "run-1" "bucket/loans" blank.

Definition event (ty st stat : string) (p : option Z) (err : option string)
    : Update.t :=
  {| Update.type := ty; Update.step := st; Update.status := stat;
     Update.message := None; Update.progress := p; Update.error := err;
     Update.data := None |}.

Definition workflow_complete : Update.t :=
  event "workflow_complete" "cleanup" "completed" (Some 100%Z) None.

Definition cleanup_running : Update.t :=
  event "workflow_update" "cleanup" "running" (Some 95%Z) None.

Definition transform_failed : Update.t :=
  event "workflow_update" "transform" "failed" (Some 60%Z) (Some "bad SQL").

Definition execute_started : Update.t :=
  event "workflow_update" "execute" "started" (Some 40%Z) None.


(** An approval request that carries the batch of three candidates. *)
Definition approval_request : Update.t :=
  {| Update.type := "hitl_approval_required"; Update.step := "hitl";
     Update.status := "waiting_for_approval"; Update.message := None;
     Update.progress := None; Update.error := None;
     Update.data := Some {| Data.mappings := Some batch;
                            Data.transformations := None;
                            Data.reviewed := None;
                            Data.pending := None |} |}.

(** A first run completes, the user starts a second one from the same
    window, and the second run reports its first progress. *)
Definition first_done : State := deliver workflow_complete started.
Definition second_started : State :=
  handleGCSWorkflowStarted "run-2" "bucket/loans" first_done.
Definition second_progress : State :=
  deliver (event "workflow_update" "download" "running" (Some 10%Z) None)
    second_started.

(** The props of the progress card over the four renders; the card stays
    mounted throughout, since the window shows it in all four states. *)
Definition two_runs : list Props :=
  omap progressCardProps [started; first_done; second_started; second_progress].

End Samples.

(** * Properties of the approval card *)

Module HITLApprovalCardFacts.

Import HITLApprovalCard HITLApprovalCardSpec Samples.

Example approvals_batch :
  approvals batch =
    [ {| a_mapping_id := "m1"; a_status := approved |};
      {| a_mapping_id := "m2"; a_status := approved |};
      {| a_mapping_id := "m3"; a_status := rejected |} ].
Proof. reflexivity. Qed.

Example counts_batch :
  let c := mount batch in
  (pendingCount c, approvedCount c, rejectedCount c, allReviewed c) = (1, 1, 1, false).
Proof. reflexivity. Qed.

Example click_blocked : clickSubmit Resolved (mount batch) = None.
Proof. reflexivity. Qed.

Example approve_selected_batch :
  status <$> localMappings
    (handleApproveSelected (handleToggleSelect "m3" (handleToggleSelect "m1" (mount batch))))
  = [approved; approved; approved].
Proof. vm_compute. reflexivity. Qed.

Lemma approvals_lookup (ms : list MappingCandidate) (i : nat) :
  approvals ms !! i =
    (λ m, {| a_mapping_id := mapping_id m;
             a_status := submitted_status (status m) |}) <$> ms !! i.
Proof.
  unfold approvals. rewrite list_lookup_fmap.
  destruct (ms !! i) as [m|]; simpl; [|done].
  by destruct (status m).
Qed.

(** The three status filters partition any candidate list. *)
Lemma status_partition (ms : list MappingCandidate) :
  length (filter (λ m, status m = approved) ms)
  + length (filter (λ m, status m = rejected) ms)
  + length (filter (λ m, status m = pending) ms) = length ms.
Proof.
  induction ms as [|m ms IH]; [done|].
  rewrite !filter_cons. destruct (status m); simpl; lia.
Qed.

Lemma filter_pending_nil (ms : list MappingCandidate) :
  length (filter (λ m, status m = pending) ms) = 0 ↔
  Forall (λ m, status m ≠ pending) ms.
Proof.
  induction ms as [|m ms IH]; [by split; [constructor|]|].
  rewrite filter_cons, Forall_cons. destruct (decide (status m = pending)) as [E|E]; simpl.
  - split; [lia|]. intros [H _]. done.
  - rewrite IH. split; [by split | by intros [_ ?]].
Qed.

Lemma perform_ids (op : Operation) (c : Card) :
  mapping_id <$> localMappings (perform op c) = mapping_id <$> localMappings c.
Proof.
  destruct op; simpl; rewrite <- list_fmap_compose; apply list_fmap_ext;
    intros i m _; simpl; try case_bool_decide; done.
Qed.

(** C6: the request body built by [handleSubmit] has one entry per local
    candidate, in order and under the candidate's id; a candidate still
    pending is sent as approved, an approved or rejected one with its
    status unchanged.  This holds whatever [api.post] answers. *)
Theorem handleSubmit_defaults_pending_to_approved
    (res : PostResult) (c : Card) :
  posted (handleSubmit res c) = approvals (localMappings c)
  ∧ length (approvals (localMappings c)) = length (localMappings c)
  ∧ ∀ (i : nat) (m : MappingCandidate),
      localMappings c !! i = Some m →
      ∃ a, approvals (localMappings c) !! i = Some a
           ∧ a_mapping_id a = mapping_id m
           ∧ (status m = pending → a_status a = approved)
           ∧ (status m = approved → a_status a = approved)
           ∧ (status m = rejected → a_status a = rejected).
Proof.
  split; [by destruct res|]. split.
  { unfold approvals. by rewrite length_fmap. }
  intros i m Hm. rewrite approvals_lookup, Hm. simpl.
  eexists; split; [reflexivity|]. simpl.
  destruct (status m); repeat split; congruence.
Qed.

(** C7: each of the six operations keeps the candidates (same number, same
    ids in the same order), every status is one of the three, the three
    counts add up to the number of candidates before and after, and the
    card is all-reviewed exactly when nothing is pending; the submit button
    is then enabled unless a submission is in flight. *)
Theorem operations_keep_counts (op : Operation) (c : Card) :
  let c' := perform op c in
  length (localMappings c') = length (localMappings c)
  ∧ mapping_id <$> localMappings c' = mapping_id <$> localMappings c
  ∧ Forall (λ m, status m = pending ∨ status m = approved ∨ status m = rejected)
           (localMappings c')
  ∧ approvedCount c + rejectedCount c + pendingCount c = length (localMappings c)
  ∧ approvedCount c' + rejectedCount c' + pendingCount c' = length (localMappings c')
  ∧ (allReviewed c' = true ↔ pendingCount c' = 0)
  ∧ (submitDisabled c' = false ↔ submitting c' = false ∧ pendingCount c' = 0).
Proof.
  intros c'. split.
  { rewrite <- (length_fmap mapping_id (localMappings c')).
    unfold c'. rewrite perform_ids. by rewrite length_fmap. }
  split; [apply perform_ids|]. split.
  { apply Forall_forall. intros m _. destruct (status m); auto. }
  split; [apply status_partition|]. split; [apply status_partition|].
  assert (allReviewed c' = true ↔ pendingCount c' = 0) as Hall.
  { unfold allReviewed. by rewrite bool_decide_eq_true. }
  split; [exact Hall|].
  unfold submitDisabled. rewrite orb_false_iff, negb_false_iff. by rewrite Hall.
Qed.

(** C8: a decision on one mapping id is idempotent, and a later decision on
    the same id overwrites an earlier one. *)
Theorem decision_idempotent_last_write_wins
    (d d' : Decision) (mappingId : string) (c : Card) :
  decide_one d mappingId (decide_one d mappingId c) = decide_one d mappingId c
  ∧ decide_one d' mappingId (decide_one d mappingId c) = decide_one d' mappingId c.
Proof.
  assert (∀ d1 d2, decide_one d2 mappingId (decide_one d1 mappingId c)
                   = decide_one d2 mappingId c) as H.
  { intros d1 d2. destruct c as [ms ex lm sub err sel].
    destruct d1, d2; unfold decide_one, handleApprove, handleReject,
      setLocalMappings; simpl; f_equal;
      rewrite <- list_fmap_compose; apply list_fmap_ext; intros i m _; simpl;
      repeat (case_bool_decide; simpl); done. }
  split; apply H.
Qed.

(** C10: a submission that goes through the button happens with no pending
    candidate, so the default of [handleSubmit] is never taken: the posted
    batch has one decision per candidate, each carrying the candidate's own
    status, which is approved or rejected. *)
Theorem click_submits_decided_batch
    (res : PostResult) (c : Card) (sub : Submitted)
    (Hclick : clickSubmit res c = Some sub) :
  pendingCount c = 0
  ∧ Forall (λ m, status m ≠ pending) (localMappings c)
  ∧ posted sub =
      (λ m, {| a_mapping_id := mapping_id m; a_status := status m |})
        <$> localMappings c
  ∧ length (posted sub) = length (localMappings c)
  ∧ Forall (λ a, a_status a = approved ∨ a_status a = rejected) (posted sub).
Proof.
  unfold clickSubmit in Hclick.
  destruct (submitDisabled c) eqn:Hdis; [done|].
  injection Hclick as <-.
  unfold submitDisabled in Hdis. apply orb_false_iff in Hdis as [_ Hall].
  apply negb_false_iff in Hall. unfold allReviewed in Hall.
  apply bool_decide_eq_true in Hall.
  assert (Forall (λ m, status m ≠ pending) (localMappings c)) as Hno.
  { by apply filter_pending_nil. }
  assert (posted (handleSubmit res c) =
      (λ m, {| a_mapping_id := mapping_id m; a_status := status m |})
        <$> localMappings c) as Hposted.
  { transitivity (approvals (localMappings c)); [by destruct res|].
    unfold approvals. apply Forall_fmap_ext_1.
    eapply Forall_impl; [exact Hno|]. intros m Hm. simpl.
    by rewrite bool_decide_eq_false_2. }
  split; [exact Hall|]. split; [exact Hno|]. split; [exact Hposted|].
  rewrite Hposted. split; [by rewrite length_fmap|].
  apply Forall_fmap. eapply Forall_impl; [exact Hno|].
  intros m Hm. simpl. destruct (status m) eqn:E; [done | auto | auto].
Qed.

Lemma click_submits_decided_batch_witness :
  let c := handleApprove "m1" (mount batch) in
  clickSubmit Resolved c = Some (handleSubmit Resolved c)
  ∧ posted (handleSubmit Resolved c) =
      [ {| a_mapping_id := "m1"; a_status := approved |};
        {| a_mapping_id := "m2"; a_status := approved |};
        {| a_mapping_id := "m3"; a_status := rejected |} ].
Proof.
  simpl. split; [reflexivity|].
  exact (proj1 (proj2 (proj2
    (click_submits_decided_batch Resolved (handleApprove "m1" (mount batch))
       (handleSubmit Resolved (handleApprove "m1" (mount batch))) eq_refl)))).
Defined.

End HITLApprovalCardFacts.

(** * Properties of the progress card *)

Module ETLProgressCardFacts.

Import ETLProgressCard ETLProgressCardSpec Samples.

Example shown_one_run :
  shown [frame "r" (Some 0%Z); frame "r" (Some 40%Z); frame "r" (Some 25%Z);
         frame "r" None; frame "r" (Some 250%Z)] mount
  = [0; 40; 40; 40; 100]%Z.
Proof. reflexivity. Qed.

Example getStepStatus_inferred :
  getStepStatus {| runId := "r"; overallProgress := None; currentStep := "mapper";
                   run_status := "running"; steps := [] |} <$> step_names
  = [completed; completed; completed; running; pending; pending; pending;
     pending; pending; pending; pending].
Proof. reflexivity. Qed.

Lemma clamp_range (p : option Z) : (0 ≤ clamp p ≤ 100)%Z.
Proof. unfold clamp. lia. Qed.

Lemma render_in_sync (r : string) (h : Hooks) (pr : Props) :
  InSync r h → runId pr = r →
  let m := Z.max (maxProgressRef h) (clamp (overallProgress pr)) in
  (render pr h).1 = m
  ∧ maxProgressRef (render pr h).2 = m
  ∧ InSync r (render pr h).2.
Proof.
  intros [Heff (dep & Hmemo & Hdep)] Hr m.
  unfold render, smoothProgress. rewrite Hmemo.
  case_bool_decide as Hd.
  - subst dep. simpl. unfold resetEffect. rewrite Hr, Heff.
    rewrite bool_decide_eq_true_2 by done.
    assert (m = maxProgressRef h) as -> by (unfold m; lia).
    split; [done|]. split; [done|]. split; [done|]. by exists (overallProgress pr).
  - unfold compute_smoothProgress. simpl. unfold resetEffect. simpl.
    rewrite Hr, Heff. rewrite bool_decide_eq_true_2 by done. simpl.
    assert ((if (clamp (overallProgress pr) >? maxProgressRef h)%Z
             then clamp (overallProgress pr) else maxProgressRef h) = m) as ->.
    { unfold m. destruct (Z.gtb_spec (clamp (overallProgress pr)) (maxProgressRef h)); lia. }
    split; [done|]. split; [done|]. split; [done|].
    exists (overallProgress pr). split; [done|]. apply Z.le_max_r.
Qed.

(** Within one run, from cells that agree, the card shows the clamped
    running maximum of the values it is handed. *)
Lemma shown_in_sync (r : string) (prs : list Props) (h : Hooks) :
  InSync r h → Forall (λ pr, runId pr = r) prs →
  shown prs h = running_max (maxProgressRef h) (overallProgress <$> prs).
Proof.
  revert h. induction prs as [|pr prs IH]; intros h Hs Hall; [done|].
  apply Forall_cons in Hall as [Hr Hall]. simpl.
  destruct (render_in_sync r h pr Hs Hr) as (H1 & H2 & H3).
  destruct (render pr h) as [v h'] eqn:E. simpl in *. subst v.
  f_equal. rewrite (IH h' H3 Hall). by rewrite H2.
Qed.

Lemma running_max_lower (m : Z) (ps : list (option Z)) :
  Forall (λ x, (m ≤ x)%Z) (running_max m ps).
Proof.
  revert m. induction ps as [|p ps IH]; intros m; simpl; constructor; [lia|].
  eapply Forall_impl; [apply IH|]. simpl. lia.
Qed.

Lemma running_max_monotone (m : Z) (ps : list (option Z)) (i j : nat) (a b : Z) :
  i ≤ j → running_max m ps !! i = Some a → running_max m ps !! j = Some b →
  (a ≤ b)%Z.
Proof.
  revert m i j. induction ps as [|p ps IH]; intros m i j Hij Ha Hb; [done|].
  simpl in *. destruct i as [|i], j as [|j]; simpl in *; try lia.
  - assert (a = b) as -> by congruence. lia.
  - injection Ha as <-.
    pose proof (running_max_lower (Z.max m (clamp p)) ps) as Hl.
    rewrite Forall_lookup in Hl. exact (Hl j b Hb).
  - eapply IH; [|exact Ha|exact Hb]. lia.
Qed.

(** A card that is mounted on the first frame of a run, which starts at
    progress 0, shows the clamped running maximum for the rest of that run,
    and the value shown never goes down. *)
Lemma shown_from_start_of_run (r : string) (p0 : option Z) (prs : list Props) :
  clamp p0 = 0%Z → Forall (λ pr, runId pr = r) prs →
  shown (frame r p0 :: prs) mount = 0%Z :: running_max 0 (overallProgress <$> prs)
  ∧ ∀ (i j : nat) (a b : Z), i ≤ j →
      shown (frame r p0 :: prs) mount !! i = Some a →
      shown (frame r p0 :: prs) mount !! j = Some b → (a ≤ b)%Z.
Proof.
  intros H0 Hall.
  assert (render (frame r p0) mount
          = (0%Z, {| maxProgressRef := 0; memo := Some (p0, 0%Z);
                     effect_runId := Some r |})) as Hfirst.
  { unfold render, smoothProgress, compute_smoothProgress, mount, resetEffect.
    cbn -[clamp]. rewrite H0. reflexivity. }
  assert (shown (frame r p0 :: prs) mount
          = 0%Z :: running_max 0 (overallProgress <$> prs)) as E.
  { cbn [shown]. rewrite Hfirst. f_equal.
    rewrite (shown_in_sync r); [done| |exact Hall].
    split; [done|]. exists p0. cbn -[clamp]. split; [done|lia]. }
  split; [exact E|].
  rewrite E. intros i j a b Hij Ha Hb.
  apply (running_max_monotone 0 (p0 :: (overallProgress <$> prs)) i j a b Hij);
    cbn [running_max]; rewrite H0; assumption.
Qed.

Lemma shown_from_start_of_run_witness :
  shown [frame "r" (Some 0%Z); frame "r" (Some 40%Z); frame "r" (Some 25%Z)] mount
  = [0; 40; 40]%Z.
Proof.
  refine (proj1 (shown_from_start_of_run "r" (Some 0%Z)
                   [frame "r" (Some 40%Z); frame "r" (Some 25%Z)] eq_refl _)).
  repeat constructor.
Defined.

(** C9, as the program has it: the table has eleven steps in a fixed
    order; four of them carry a name that differs from the one in the
    specification's list (profiler, staging, mapper, validator), and the other
    seven carry the specification's name at the same position. *)
Theorem ETL_STEPS_names :
  length ETL_STEPS = 11
  ∧ step_names =
      ["download"; "profiler"; "staging"; "mapper"; "hitl"; "create_tables";
       "transform"; "execute"; "validator"; "feedback"; "cleanup"]
  ∧ NoDup step_names
  ∧ length spec_step_names = 11
  ∧ ∀ i : nat, i ∉ [1; 2; 3; 8] → step_names !! i = spec_step_names !! i.
Proof.
  split; [reflexivity|]. split; [reflexivity|]. split.
  { compute_done. }
  split; [reflexivity|].
  intros i Hi.
  do 11 (destruct i as [|i];
         [first [reflexivity
                | exfalso; apply Hi; repeat first [apply list_elem_of_here
                                                  | apply list_elem_of_further]]|]).
  reflexivity.
Qed.

(** C9 as the specification words it fails: the names of the program are
    not the names of the specification's list. *)
Lemma step_names_differ_from_spec : step_names ≠ spec_step_names.
Proof. discriminate. Qed.

End ETLProgressCardFacts.

(** * Properties of the socket callback *)

Module ChatWindowFacts.

Import ETLProgressCard ChatWindow ChatWindowSpec Samples.

Example started_level : runLevel started = Some ("running", "initialized", Some 0%Z).
Proof. reflexivity. Qed.

Example completed_level :
  runLevel (deliver workflow_complete started)
  = Some ("completed", "completed", Some 100%Z).
Proof. reflexivity. Qed.

Example cleanup_without_latch_regresses :
  runLevel (deliver cleanup_running
              (setWorkflowCompleted false (setWorkflowCompletedRef false
                 (deliver workflow_complete started))))
  = Some ("running", "cleanup", Some 95%Z).
Proof. reflexivity. Qed.

Example cleanup_after_completion :
  let s := deliver cleanup_running (deliver workflow_complete started) in
  runLevel s = Some ("completed", "completed", Some 100%Z)
  ∧ status <$> etlSteps s
    = [completed; completed; completed; completed; completed; completed;
       completed; completed; completed; completed; running].
Proof. split; reflexivity. Qed.

Example failure_level :
  let s := deliver transform_failed started in
  runLevel s = Some ("failed", "transform", Some 60%Z)
  ∧ (Run.error <$> currentRun s) = Some (Some "bad SQL")
  ∧ status <$> etlSteps s
    = [pending; pending; pending; pending; pending; pending;
       error; pending; pending; pending; pending].
Proof. repeat split; reflexivity. Qed.

(** ** Frame lemmas *)

Lemma completeOpenSteps_frame (seen : list ETLStep) (s : State) :
  completeOpenSteps seen s = setETLSteps (etlSteps (completeOpenSteps seen s)) s.
Proof.
  revert s. induction seen as [|e seen IH]; intros s; [by destruct s|].
  unfold completeOpenSteps in *. cbn [foldl]. rewrite IH.
  destruct (bool_decide (status e = pending) || bool_decide (status e = running));
    reflexivity.
Qed.


(** ** The three paths of the callback *)

Lemma onMessage_no_run (v : Rendered) (u : Update.t) (s : State) :
  r_currentRun v = None → onMessage v u s = s.
Proof. intros H. unfold onMessage. by rewrite H. Qed.

Lemma onMessage_complete (v : Rendered) (u : Update.t) (s : State) :
  is_Some (r_currentRun v) → Update.type u = "workflow_complete" →
  onMessage v u s =
    clearHitl (updateCurrentRun completion
      (completeOpenSteps (r_etlSteps v)
         (setWorkflowCompleted true (setWorkflowCompletedRef true s)))).
Proof.
  intros [r Hr] Ht. unfold onMessage. rewrite Hr. unfold streq at 1.
  rewrite Ht. reflexivity.
Qed.

Lemma onMessage_latched (v : Rendered) (u : Update.t) (s : State) :
  is_Some (r_currentRun v) → Update.type u ≠ "workflow_complete" →
  workflowCompletedRef s = true ∨ r_workflowCompleted v = true →
  onMessage v u s =
    updateETLStep (Update.step u) (latchedStepStatus (Update.status u))
      (Update.message u) s.
Proof.
  intros [r Hr] Ht Hl. unfold onMessage. rewrite Hr. unfold streq at 1.
  rewrite bool_decide_eq_false_2 by done.
  destruct Hl as [-> | ->]; [|rewrite orb_true_r]; reflexivity.
Qed.


(** ** The completion latch *)

Lemma completion_level (v : Rendered) (u : Update.t) (s : State) :
  is_Some (r_currentRun v) → Update.type u = "workflow_complete" →
  workflowCompletedRef (onMessage v u s) = true
  ∧ runLevel (onMessage v u s)
    = (λ _, ("completed", "completed", Some 100%Z)) <$> currentRun s.
Proof.
  intros Hv Ht. rewrite (onMessage_complete v u s Hv Ht).
  rewrite completeOpenSteps_frame. unfold runLevel. cbn.
  split; [done|]. by destruct (currentRun s).
Qed.

Lemma onMessage_sets_latch (v : Rendered) (u : Update.t) (s : State) :
  is_Some (r_currentRun v) → Update.type u = "workflow_complete" →
  Latched (onMessage v u s).
Proof.
  intros Hv Ht. destruct (completion_level v u s Hv Ht) as [H1 H2].
  split; [done|]. rewrite H2. destruct (currentRun s); [by right|by left].
Qed.

Lemma onMessage_keeps_latch (v : Rendered) (u : Update.t) (s : State) :
  Latched s →
  Latched (onMessage v u s) ∧ runLevel (onMessage v u s) = runLevel s.
Proof.
  intros [Href Hlev].
  destruct (r_currentRun v) as [r|] eqn:Hr; last first.
  { rewrite onMessage_no_run by done. by repeat split. }
  assert (is_Some (r_currentRun v)) as Hv by (by exists r).
  destruct (decide (Update.type u = "workflow_complete")) as [Ht|Ht].
  - destruct (completion_level v u s Hv Ht) as [H1 H2].
    assert (runLevel (onMessage v u s) = runLevel s) as E.
    { rewrite H2. unfold runLevel in *.
      destruct (currentRun s); [|done]. by destruct Hlev as [Hl|Hl]. }
    split; [|exact E]. split; [done|]. by rewrite E.
  - rewrite (onMessage_latched v u s Hv Ht) by (by left). by repeat split.
Qed.

Lemma receive_keeps_latch (evs : list (Rendered * Update.t)) (s : State) :
  Latched s → Latched (receive evs s) ∧ runLevel (receive evs s) = runLevel s.
Proof.
  revert s. induction evs as [|[v u] evs IH]; intros s Hs; [done|].
  unfold receive in *. cbn [foldl fst snd].
  destruct (onMessage_keeps_latch v u s Hs) as [H1 H2].
  destruct (IH _ H1) as [H3 H4]. split; [done|]. by rewrite H4.
Qed.

(** ** Step records under the store actions *)

Lemma updateETLStep_steps (n : string) (st : StepStatus) (msg : option string)
    (s : State) :
  Forall2 (λ e e', name e' = name e
                   ∧ (name e = n → status e' = st)
                   ∧ (name e ≠ n → e' = e))
          (etlSteps s) (etlSteps (updateETLStep n st msg s)).
Proof.
  cbn [updateETLStep setETLSteps etlSteps]. apply Forall2_fmap_r.
  apply Forall_Forall2_diag, Forall_forall. intros e _. unfold compose.
  case_bool_decide; simpl; repeat split; intros; done.
Qed.



(** ** What the callback guarantees *)

(** C1: once a [workflow_complete] event has been handled for a run, the
    latch is set, the run shows status completed, step completed and
    progress 100, and no sequence of later events, whatever their type and
    whatever closure receives them (a cleanup-step update, a repeated
    completion, a callback of an earlier render), changes the status, the
    current step or the progress the window shows. *)
Theorem completion_latch_freezes_run
    (v0 : Rendered) (done : Update.t) (s : State)
    (evs : list (Rendered * Update.t))
    (Hrun : is_Some (r_currentRun v0))
    (Hdone : Update.type done = "workflow_complete") :
  let s1 := onMessage v0 done s in
  workflowCompletedRef s1 = true
  ∧ runLevel s1 = (λ _, ("completed", "completed", Some 100%Z)) <$> currentRun s
  ∧ runLevel (receive evs s1) = runLevel s1
  ∧ workflowCompletedRef (receive evs s1) = true.
Proof.
  intros s1. destruct (completion_level v0 done s Hrun Hdone) as [H1 H2].
  destruct (receive_keeps_latch evs s1 (onMessage_sets_latch v0 done s Hrun Hdone))
    as [[H3 _] H4].
  done.
Qed.

Lemma completion_latch_freezes_run_witness :
  runLevel (receive [(rendered started, cleanup_running)]
              (onMessage (rendered started) workflow_complete started))
  = Some ("completed", "completed", Some 100%Z).
Proof.
  pose proof (completion_latch_freezes_run (rendered started) workflow_complete
                started [(rendered started, cleanup_running)]
                (ex_intro _ _ eq_refl) eq_refl) as H.
  cbv zeta in H. destruct H as (_ & H2 & H3 & _).
  rewrite H3. exact H2.
Defined.




(** C3, as the code has it: an event of any type other than
    [workflow_complete] that arrives once the latch is set is reduced to
    one call of [updateETLStep] for the step it names, with its status
    mapped to completed, error or running; the run and every other cell
    are left as they were, and so is every step record under another
    name. *)
Theorem latched_update_is_step_only
    (v : Rendered) (u : Update.t) (s : State)
    (Hrun : is_Some (r_currentRun v))
    (Hlatch : workflowCompletedRef s = true)
    (Htype : Update.type u ≠ "workflow_complete") :
  let s' := onMessage v u s in
  s' = updateETLStep (Update.step u) (latchedStepStatus (Update.status u))
         (Update.message u) s
  ∧ s' = setETLSteps (etlSteps s') s
  ∧ currentRun s' = currentRun s
  ∧ Forall2 (λ e e', name e' = name e
                     ∧ (name e = Update.step u →
                        status e' = latchedStepStatus (Update.status u))
                     ∧ (name e ≠ Update.step u → e' = e))
            (etlSteps s) (etlSteps s')
  ∧ (Update.status u = "completed" →
     latchedStepStatus (Update.status u) = completed)
  ∧ (Update.status u = "failed" ∨ Update.status u = "error" →
     latchedStepStatus (Update.status u) = error)
  ∧ (Update.status u ∉ ["completed"; "failed"; "error"] →
     latchedStepStatus (Update.status u) = running).
Proof.
  intros s'. unfold s'. rewrite (onMessage_latched v u s Hrun Htype) by (by left).
  split; [done|]. split; [done|]. split; [done|].
  split; [apply updateETLStep_steps|].
  unfold latchedStepStatus, streq. split; [by intros ->|]. split.
  - intros [-> | ->]; reflexivity.
  - intros Hn. rewrite !not_elem_of_cons in Hn. destruct Hn as (H1 & H2 & H3 & _).
    by rewrite !bool_decide_eq_false_2 by done.
Qed.

Lemma latched_update_is_step_only_witness :
  let s := deliver workflow_complete started in
  onMessage (rendered started) cleanup_running s
  = updateETLStep "cleanup" running None s.
Proof.
  pose proof (latched_update_is_step_only (rendered started) cleanup_running
                (deliver workflow_complete started)
                (ex_intro _ _ eq_refl) eq_refl ltac:(discriminate)) as H.
  cbv zeta in H. destruct H as (H & _). exact H.
Defined.

(** C3 as stated fails for a repeated [workflow_complete]: the same
    completion event, which names the step cleanup, is delivered again
    after a late update has put the feedback record to running.  The handler
    takes the completion branch again and completes the feedback record,
    which the event does not name. *)
Lemma repeated_completion_is_not_step_only :
  let s := deliver (event "workflow_update" "feedback" "running" None None)
             (deliver workflow_complete started) in
  let u := workflow_complete in
  workflowCompletedRef s = true
  ∧ Update.step u = "cleanup"
  ∧ (λ e, (name e, status e)) <$> etlSteps s
    = [("download", completed); ("profiler", completed); ("staging", completed);
       ("mapper", completed); ("hitl", completed); ("create_tables", completed);
       ("transform", completed); ("execute", completed); ("validator", completed);
       ("feedback", running); ("cleanup", completed)]
  ∧ (λ e, (name e, status e)) <$> etlSteps (deliver u s)
    = [("download", completed); ("profiler", completed); ("staging", completed);
       ("mapper", completed); ("hitl", completed); ("create_tables", completed);
       ("transform", completed); ("execute", completed); ("validator", completed);
       ("feedback", completed); ("cleanup", completed)]
  ∧ deliver u s
    ≠ updateETLStep (Update.step u) (latchedStepStatus (Update.status u))
        (Update.message u) s.
Proof.
  cbv zeta. split; [reflexivity|]. split; [reflexivity|].
  split; [reflexivity|]. split; [reflexivity|].
  intros H. apply (f_equal (λ x, status <$> etlSteps x)) in H.
  vm_compute in H. discriminate H.
Qed.



(** Without the latch the run follows every regular update: a
    [workflow_update] that reports no failure writes status running, the
    event's step, and the event's progress and error as they come,
    whatever the run showed before (a failed status, a larger progress). *)
Theorem regular_update_overwrites_run
    (v : Rendered) (u : Update.t) (s : State) (r : Run.t)
    (Hview : is_Some (r_currentRun v))
    (Hrun : currentRun s = Some r)
    (Htype : Update.type u = "workflow_update")
    (Hstatus : Update.status u ≠ "failed" ∧ Update.status u ≠ "error")
    (Href : workflowCompletedRef s = false)
    (Hflag : r_workflowCompleted v = false) :
  currentRun (onMessage v u s) = Some (Patch.spread (progressing u) r)
  ∧ runLevel (onMessage v u s)
    = Some ("running", Update.step u, Update.progress u).
Proof.
  destruct Hview as [r0 Hr0]. destruct Hstatus as [Hf He].
  assert (currentRun (onMessage v u s) = Some (Patch.spread (progressing u) r)) as E.
  { unfold onMessage. rewrite Hr0, Href, Hflag.
    unfold workflowStatus, progressing, streq. rewrite Htype.
    rewrite (bool_decide_eq_false_2 (Update.status u = "failed")) by done.
    rewrite (bool_decide_eq_false_2 (Update.status u = "error")) by done.
    rewrite (bool_decide_eq_true_2 ("workflow_update" = "workflow_update"))
      by reflexivity.
    repeat rewrite (bool_decide_eq_false_2 ("workflow_update" = _)) by discriminate.
    destruct (Update.data u ≫= Data.mappings), (Update.data u ≫= Data.transformations),
      (Update.data u), (bool_decide (Update.step u = "mapper")),
      (bool_decide (Update.step u = "transform")),
      (bool_decide (Update.status u = "completed"));
      cbn; rewrite Hrun; reflexivity. }
  split; [exact E|]. unfold runLevel. rewrite E. reflexivity.
Qed.

Lemma regular_update_overwrites_run_witness :
  runLevel (onMessage (rendered started) execute_started
              (onMessage (rendered started) transform_failed started))
  = Some ("running", "execute", Some 40%Z).
Proof.
  refine (proj2 (regular_update_overwrites_run (rendered started) execute_started
                   (onMessage (rendered started) transform_failed started) _
                   (ex_intro _ _ eq_refl) eq_refl eq_refl _ eq_refl eq_refl)).
  split; discriminate.
Defined.

End ChatWindowFacts.

(** * The window and the progress card together *)

Module Scenario.

Import ETLProgressCard ETLProgressCardSpec ChatWindow Samples.

(** C5 at the failing input: the card is kept across a change of run.  On
    the first render of run-2 the memoised callback still reads the
    maximum of run-1, because the reset runs in an effect after that
    render; the card shows 100 for run-2 and then 10. *)
Theorem progress_regresses_after_run_change :
  runId <$> two_runs = ["run-1"; "run-1"; "run-2"; "run-2"]
  ∧ overallProgress <$> two_runs = [Some 0; Some 100; Some 0; Some 10]%Z
  ∧ shown two_runs mount = [0; 100; 100; 10]%Z
  ∧ running_max 0 [Some 0; Some 10]%Z = [0; 10]%Z.
Proof. repeat split; reflexivity. Qed.

End Scenario.

(** * More on the approval card: selection, bulk decisions, submission *)

Module HITLApprovalCardMore.

Import HITLApprovalCard HITLApprovalCardSpec Samples.

Lemma kept_pending_fmap (f : MappingCandidate → MappingCandidate)
    (l : list MappingCandidate) :
  (∀ m, f m = m ∨ status (f m) ≠ pending) →
  Forall2 kept_pending l (f <$> l).
Proof.
  intros Hf. apply Forall2_fmap_r, Forall_Forall2_diag, Forall_forall.
  intros m _. unfold compose, kept_pending. destruct (Hf m) as [-> | Hn]; [done|].
  intros Hp. by destruct Hn.
Qed.

Lemma kept_pending_perform (op : Operation) (c : Card) :
  Forall2 kept_pending (localMappings c) (localMappings (perform op c)).
Proof.
  destruct op; simpl; apply kept_pending_fmap; intros m;
    try case_bool_decide; auto; right; simpl; discriminate.
Qed.

Lemma kept_pending_count (l l' : list MappingCandidate) :
  Forall2 kept_pending l l' →
  length (filter (λ m, status m = pending) l')
  ≤ length (filter (λ m, status m = pending) l).
Proof.
  induction 1 as [|m m' l l' Hm _ IH]; [done|].
  rewrite !filter_cons.
  destruct (decide (status m' = pending)) as [Hp|Hp].
  - rewrite <- (Hm Hp). rewrite decide_True by done. simpl. lia.
  - destruct (decide (status m = pending)); simpl; lia.
Qed.

Lemma kept_pending_trans (l1 l2 l3 : list MappingCandidate) :
  Forall2 kept_pending l1 l2 → Forall2 kept_pending l2 l3 →
  Forall2 kept_pending l1 l3.
Proof.
  intros H12. revert l3. induction H12 as [|a b l1 l2 Hab _ IH]; intros l3 H23.
  - by inversion H23.
  - inversion H23 as [|b' c' l2' l3' Hbc Hrest]; subst. constructor; [|by apply IH].
    unfold kept_pending in *. intros Hp.
    pose proof (Hbc Hp) as E. subst c'. exact (Hab Hp).
Qed.

Lemma kept_pending_perform_all (ops : list Operation) (c : Card) :
  Forall2 kept_pending (localMappings c) (localMappings (perform_all ops c)).
Proof.
  revert c. induction ops as [|op ops IH]; intros c.
  - apply Forall_Forall2_diag, Forall_forall. by intros m _ _.
  - unfold perform_all in *. cbn [foldl].
    eapply kept_pending_trans; [apply kept_pending_perform|apply IH].
Qed.

(** No sequence of card operations reopens a decision: a candidate that is
    pending afterwards was pending before and has not been touched, the
    pending count never grows, and a card that was all-reviewed stays
    all-reviewed. *)
Theorem operations_never_reopen (ops : list Operation) (c : Card) :
  let c' := perform_all ops c in
  Forall2 (λ m m', status m' = pending → m' = m)
          (localMappings c) (localMappings c')
  ∧ pendingCount c' ≤ pendingCount c
  ∧ (allReviewed c = true → allReviewed c' = true).
Proof.
  intros c'. pose proof (kept_pending_perform_all ops c) as H.
  pose proof (kept_pending_count _ _ H) as Hle.
  split; [exact H|]. split; [exact Hle|].
  unfold allReviewed. rewrite !bool_decide_eq_true. unfold pendingCount, c'.
  intros H0. rewrite H0 in Hle. lia.
Qed.

(** ** Decisions as maps over the candidates *)

Lemma decide_one_as_map (d : Decision) (i : string) (c : Card) :
  decide_one d i c =
    setLocalMappings (λ prev,
      (λ m, if bool_decide (mapping_id m = i)
            then with_status m (decided d) else m) <$> prev) c.
Proof. by destruct d. Qed.

Lemma decide_each_as_map (d : Decision) (l : list string) (c : Card) :
  decide_each d l c =
    setLocalMappings (λ prev,
      (λ m, if bool_decide (mapping_id m ∈ l)
            then with_status m (decided d) else m) <$> prev) c.
Proof.
  revert c. induction l as [|i l IH]; intros c.
  - destruct c as [ms ex lm sub err sel]. unfold decide_each, setLocalMappings.
    simpl. f_equal. rewrite <- (list_fmap_id lm) at 1. apply list_fmap_ext.
    intros k m _. reflexivity.
  - unfold decide_each in *. cbn [foldl]. rewrite IH, decide_one_as_map.
    destruct c as [ms ex lm sub err sel]. unfold setLocalMappings. simpl.
    f_equal. rewrite <- list_fmap_compose. apply list_fmap_ext.
    intros k m _. unfold compose.
    destruct (decide (mapping_id m = i)) as [E|E].
    + rewrite (bool_decide_eq_true_2 _ E). simpl.
      rewrite (bool_decide_eq_true_2 (mapping_id m ∈ i :: l))
        by (apply elem_of_cons; by left).
      by case_bool_decide.
    + rewrite (bool_decide_eq_false_2 _ E).
      destruct (decide (mapping_id m ∈ l)) as [Hin|Hin].
      * rewrite (bool_decide_eq_true_2 _ Hin).
        by rewrite bool_decide_eq_true_2 by (apply elem_of_cons; by right).
      * rewrite (bool_decide_eq_false_2 _ Hin).
        by rewrite bool_decide_eq_false_2 by (by apply not_elem_of_cons).
Qed.

(** A bulk decision on the selection is the same as clicking the button of
    every selected candidate, one after the other, and then clearing the
    selection.  Candidates that are not selected keep their row, and with
    nothing selected no row changes. *)
Theorem selected_decision_is_each_decision (d : Decision) (c : Card) :
  decide_selected d c
    = setSelectedIds (λ _, ∅) (decide_each d (elements (selectedIds c)) c)
  ∧ selectedIds (decide_selected d c) = ∅
  ∧ Forall2 (λ m m', if bool_decide (mapping_id m ∈ selectedIds c)
                     then m' = with_status m (decided d) else m' = m)
            (localMappings c) (localMappings (decide_selected d c))
  ∧ (selectedIds c = ∅ →
     localMappings (decide_selected d c) = localMappings c).
Proof.
  assert (localMappings (decide_selected d c)
          = (λ m, if bool_decide (mapping_id m ∈ selectedIds c)
                  then with_status m (decided d) else m) <$> localMappings c) as E.
  { by destruct d. }
  split.
  { rewrite decide_each_as_map. destruct c as [ms ex lm sub err sel].
    destruct d; unfold decide_selected, handleApproveSelected,
      handleRejectSelected, setSelectedIds, setLocalMappings; simpl; f_equal;
      apply list_fmap_ext; intros k m _; simpl;
      rewrite (bool_decide_ext (mapping_id m ∈ elements sel) (mapping_id m ∈ sel))
        by apply elem_of_elements; reflexivity. }
  split; [by destruct d|]. split.
  - rewrite E. apply Forall2_fmap_r, Forall_Forall2_diag, Forall_forall.
    intros m _. unfold compose. by case_bool_decide.
  - intros Hsel. rewrite E, Hsel.
    rewrite <- (list_fmap_id (localMappings c)) at 2. apply list_fmap_ext.
    intros k m _. simpl. rewrite bool_decide_eq_false_2; [done|].
    apply not_elem_of_empty.
Qed.

(** Approve All and Reject All leave nothing pending, whatever had been
    decided before: every candidate carries the bulk decision, and the
    submit button is enabled unless a submission is in flight. *)
Theorem bulk_decision_reviews_all (c : Card) :
  (Forall (λ m, status m = approved) (localMappings (handleApproveAll c))
   ∧ pendingCount (handleApproveAll c) = 0
   ∧ approvedCount (handleApproveAll c) = length (localMappings c)
   ∧ rejectedCount (handleApproveAll c) = 0
   ∧ submitDisabled (handleApproveAll c) = submitting c)
  ∧ (Forall (λ m, status m = rejected) (localMappings (handleRejectAll c))
     ∧ pendingCount (handleRejectAll c) = 0
     ∧ approvedCount (handleRejectAll c) = 0
     ∧ rejectedCount (handleRejectAll c) = length (localMappings c)
     ∧ submitDisabled (handleRejectAll c) = submitting c).
Proof.
  assert (∀ (st : Status) (l : list MappingCandidate) (x : Status),
            length (filter (λ m, status m = x) ((λ m, with_status m st) <$> l))
            = if decide (st = x) then length l else 0) as Hcount.
  { intros st l x. induction l as [|m l IH]; [by destruct (decide (st = x))|].
    rewrite fmap_cons, filter_cons. simpl.
    destruct (decide (st = x)); simpl; [by rewrite IH|exact IH]. }
  unfold submitDisabled, allReviewed, pendingCount, approvedCount, rejectedCount,
    handleApproveAll, handleRejectAll. simpl. rewrite !Hcount. simpl.
  repeat split; try (apply Forall_fmap, Forall_forall; by intros m _);
    by rewrite orb_false_r.
Qed.

(** ** Selection *)

(** Ticking a candidate's checkbox twice gives the card back; one tick
    flips the membership of that id and of no other. *)
Theorem toggle_select_twice (i : string) (c : Card) :
  handleToggleSelect i (handleToggleSelect i c) = c
  ∧ (i ∈ selectedIds (handleToggleSelect i c) ↔ i ∉ selectedIds c)
  ∧ (∀ j, j ≠ i →
       (j ∈ selectedIds (handleToggleSelect i c) ↔ j ∈ selectedIds c))
  ∧ localMappings (handleToggleSelect i c) = localMappings c.
Proof.
  destruct c as [ms ex lm sub err sel].
  unfold handleToggleSelect, setSelectedIds. simpl.
  split; [|split; [|split; [|done]]].
  - f_equal. destruct (decide (i ∈ sel)) as [Hin|Hin].
    + rewrite (bool_decide_eq_true_2 _ Hin).
      rewrite bool_decide_eq_false_2
        by (rewrite elem_of_difference, elem_of_singleton; tauto).
      apply set_eq. intros x.
      rewrite elem_of_union, elem_of_difference, elem_of_singleton.
      destruct (decide (x = i)); subst; tauto.
    + rewrite (bool_decide_eq_false_2 _ Hin).
      rewrite bool_decide_eq_true_2
        by (rewrite elem_of_union, elem_of_singleton; tauto).
      apply set_eq. intros x.
      rewrite elem_of_difference, elem_of_union, elem_of_singleton.
      destruct (decide (x = i)); subst; tauto.
  - case_bool_decide as Hin.
    + rewrite elem_of_difference, elem_of_singleton. tauto.
    + rewrite elem_of_union, elem_of_singleton. tauto.
  - intros j Hj. case_bool_decide.
    + rewrite elem_of_difference, elem_of_singleton. tauto.
    + rewrite elem_of_union, elem_of_singleton. tauto.
Qed.

Lemma size_list_to_set_le (l : list string) :
  size (list_to_set l : gset string) ≤ length l.
Proof.
  induction l as [|x l IH]; [by rewrite list_to_set_nil, size_empty|].
  rewrite list_to_set_cons, size_union_alt, size_singleton. simpl.
  pose proof (subseteq_size (list_to_set l ∖ {[x]}) (list_to_set l : gset string)) as H.
  assert (list_to_set l ∖ {[x]} ⊆ (list_to_set l : gset string)) as Hsub.
  { intros y. rewrite elem_of_difference. tauto. }
  specialize (H Hsub). lia.
Qed.

Lemma size_list_to_set_NoDup (l : list string) :
  size (list_to_set l : gset string) = length l → NoDup l.
Proof.
  induction l as [|x l IH]; [constructor|].
  rewrite list_to_set_cons, size_union_alt, size_singleton. simpl. intros Hs.
  assert (list_to_set l ∖ {[x]} ⊆ (list_to_set l : gset string)) as Hsub.
  { intros y. rewrite elem_of_difference. tauto. }
  pose proof (subseteq_size _ _ Hsub) as H1.
  pose proof (size_list_to_set_le l) as H2.
  constructor; [|apply IH; lia].
  intros Hin.
  assert ((list_to_set l : gset string) = {[x]} ∪ (list_to_set l ∖ {[x]})) as E.
  { apply set_eq. intros y.
    rewrite elem_of_union, elem_of_difference, elem_of_singleton, elem_of_list_to_set.
    destruct (decide (y = x)); subst; tauto. }
  rewrite E, size_union_alt, size_singleton in H2.
  assert ((list_to_set l ∖ {[x]}) ∖ {[x]} = (list_to_set l ∖ {[x]} : gset string)) as E2.
  { apply set_eq. intros y. rewrite !elem_of_difference. tauto. }
  rewrite E2 in H2. lia.
Qed.

(** The header checkbox.  A click leaves either nothing or every id
    selected.  On a non-empty table with nothing selected it selects all;
    with every id selected it clears the selection when the ids are
    distinct, and when two candidates share an id it cannot clear: the set
    is smaller than the table, so the click selects everything again. *)
Theorem select_all_toggles (c : Card) :
  let all : gset string := list_to_set (ids c) in
  (selectedIds (handleSelectAll c) = ∅ ∨ selectedIds (handleSelectAll c) = all)
  ∧ (localMappings c ≠ [] → selectedIds c = ∅ →
     selectedIds (handleSelectAll c) = all)
  ∧ (NoDup (ids c) → selectedIds c = all →
     selectedIds (handleSelectAll c) = ∅)
  ∧ (¬ NoDup (ids c) → selectedIds c = all →
     selectedIds (handleSelectAll c) = all)
  ∧ localMappings (handleSelectAll c) = localMappings c.
Proof.
  intros all. unfold handleSelectAll.
  assert (length (localMappings c) = length (ids c)) as Hlen
    by (unfold ids; by rewrite length_fmap).
  split; [case_bool_decide; auto|]. split.
  { intros Hne Hsel. rewrite bool_decide_eq_false_2; [done|].
    rewrite Hsel, size_empty. destruct (localMappings c); [done|simpl; lia]. }
  split.
  { intros Hnd Hsel. rewrite bool_decide_eq_true_2; [done|].
    rewrite Hsel, Hlen. unfold all. by apply size_list_to_set. }
  split; [|by case_bool_decide].
  intros Hdup Hsel. rewrite bool_decide_eq_false_2; [done|].
  rewrite Hsel, Hlen. intros Hs. by apply Hdup, size_list_to_set_NoDup.
Qed.

(** ** Independence of decisions *)

(** Decisions on different ids commute, and a decision on an id that no
    candidate carries changes nothing. *)
Theorem decisions_are_independent
    (d1 d2 : Decision) (a b : string) (c : Card) :
  (a ≠ b →
   decide_one d1 a (decide_one d2 b c) = decide_one d2 b (decide_one d1 a c))
  ∧ (a ∉ ids c → decide_one d1 a c = c).
Proof.
  destruct c as [ms ex lm sub err sel]. rewrite !decide_one_as_map.
  unfold setLocalMappings, ids. simpl. split.
  - intros Hab. f_equal. rewrite <- !list_fmap_compose. apply list_fmap_ext.
    intros k m _. unfold compose.
    destruct (decide (mapping_id m = a)) as [Ea|Ea];
      destruct (decide (mapping_id m = b)) as [Eb|Eb]; [congruence| | |];
      rewrite ?(bool_decide_eq_true_2 _ Ea), ?(bool_decide_eq_false_2 _ Ea),
        ?(bool_decide_eq_true_2 _ Eb), ?(bool_decide_eq_false_2 _ Eb); cbn [mapping_id with_status];
      rewrite ?(bool_decide_eq_true_2 _ Ea), ?(bool_decide_eq_false_2 _ Ea),
        ?(bool_decide_eq_true_2 _ Eb), ?(bool_decide_eq_false_2 _ Eb); reflexivity.
  - intros Hnot. f_equal. rewrite <- (list_fmap_id lm) at 2.
    apply list_fmap_ext. intros k m Hm. simpl.
    rewrite bool_decide_eq_false_2; [done|]. intros E. apply Hnot.
    rewrite <- E. apply list_elem_of_fmap_2. by eapply list_elem_of_lookup_2.
Qed.

(** ** Submission *)

(** [handleSubmit] always ends with the spinner off and never touches the
    decisions or the selection.  When the request resolves the completion
    callback runs and the error cell is null.  When it throws an error
    object the callback does not run and the error cell receives the first
    truthy value among the server's detail, the error's message and the
    fixed text, whatever its type: a non-empty string is the text of the
    alert; a detail that is not a valid React child (the list of a
    validation reply) is stored as it is, and the next render of the card
    throws.  When it throws [null] or [undefined] the callback does not run
    and the error cell stays null. *)
Theorem handleSubmit_outcomes (res : PostResult) (c : Card) :
  let sub := handleSubmit res c in
  submitting (card_after sub) = false
  ∧ localMappings (card_after sub) = localMappings c
  ∧ selectedIds (card_after sub) = selectedIds c
  ∧ (res = Resolved →
     approvalComplete sub = true ∧ error (card_after sub) = None)
  ∧ (res = ThrewNullish →
     approvalComplete sub = false ∧ error (card_after sub) = None)
  ∧ (∀ detail message, res = Threw detail message →
     approvalComplete sub = false
     ∧ ∃ a, error (card_after sub) = Some a ∧ truthy a = true
            ∧ (truthy detail = true → a = detail)
            ∧ (truthy detail = false → truthy message = true → a = message)
            ∧ (truthy detail = false → truthy message = false →
               a = any_string "Failed to submit approvals")
            ∧ (∀ x, a = any_string x →
               alertText (card_after sub) = Some x
               ∧ renderThrows (card_after sub) = false)
            ∧ (a = any_object →
               alertText (card_after sub) = None
               ∧ renderThrows (card_after sub) = true)).
Proof.
  intros sub. unfold sub. destruct res as [|detail message|]; simpl.
  - repeat split; done.
  - split; [done|]. split; [done|]. split; [done|]. split; [done|].
    split; [done|].
    intros d m [= <- <-]. split; [done|].
    eexists. split; [reflexivity|].
    unfold js_or.
    destruct (truthy detail) eqn:Ed; [|destruct (truthy message) eqn:Em];
      cbn [truthy negb]; rewrite ?Ed, ?Em.
    + split; [done|]. split; [done|]. split; [done|]. split; [done|].
      unfold alertText, renderThrows. cbn [error]. split.
      * intros x ->. cbn in Ed. apply negb_true_iff in Ed.
        cbn. by rewrite Ed.
      * by intros ->.
    + split; [done|]. split; [done|]. split; [done|]. split; [done|].
      unfold alertText, renderThrows. cbn [error]. split.
      * intros x ->. cbn in Em. apply negb_true_iff in Em.
        cbn. by rewrite Em.
      * by intros ->.
    + split; [done|]. split; [done|]. split; [done|]. split; [done|].
      unfold alertText, renderThrows. cbn [error]. split.
      * by intros x [= <-].
      * done.
  - repeat split; done.
Qed.

(** A validation reply: the detail is a list of objects.  The card stores
    the list in its error cell and cannot render it. *)
Lemma validation_reply_breaks_the_card :
  let sub := handleSubmit (Threw any_object (any_string "Request failed with status code 422"))
               (mount []) in
  error (card_after sub) = Some any_object
  ∧ alertShown (card_after sub) = true
  ∧ renderThrows (card_after sub) = true
  ∧ alertText (card_after sub) = None.
Proof. done. Qed.

(** Closing the alert empties the error cell and nothing else. *)
Lemma closeAlert_clears_error (c : Card) :
  error (closeAlert c) = None
  ∧ alertShown (closeAlert c) = false
  ∧ renderThrows (closeAlert c) = false
  ∧ localMappings (closeAlert c) = localMappings c
  ∧ selectedIds (closeAlert c) = selectedIds c
  ∧ submitting (closeAlert c) = submitting c.
Proof. done. Qed.

End HITLApprovalCardMore.

(** * More on the progress card: range, re-rendering, step status *)

Module ETLProgressCardMore.

Import ETLProgressCard ETLProgressCardSpec Samples.

(** ** The percentage shown *)

Lemma clamp_bounds (p : option Z) : (0 ≤ clamp p ≤ 100)%Z.
Proof. unfold clamp. lia. Qed.

Lemma render_in_range (pr : Props) (h : Hooks) :
  in_range h →
  (0 ≤ (render pr h).1 ≤ 100)%Z ∧ in_range (render pr h).2.
Proof.
  intros [Href Hmemo]. unfold render, smoothProgress.
  assert (∀ h', (0 ≤ maxProgressRef h' ≤ 100)%Z →
                (∀ dep v, memo h' = Some (dep, v) → (0 ≤ v ≤ 100)%Z) →
                in_range (resetEffect (runId pr) h')) as Hreset.
  { intros h' H1 H2. unfold resetEffect. case_bool_decide; [by split|].
    split; [simpl; lia|exact H2]. }
  assert ((0 ≤ (compute_smoothProgress (overallProgress pr) h).1 ≤ 100)%Z
          ∧ in_range (resetEffect (runId pr)
                        (compute_smoothProgress (overallProgress pr) h).2)) as Hc.
  { unfold compute_smoothProgress. cbn [fst snd].
    pose proof (clamp_bounds (overallProgress pr)) as Hcl.
    set (m := if (clamp (overallProgress pr) >? maxProgressRef h)%Z
              then clamp (overallProgress pr) else maxProgressRef h).
    assert (0 ≤ m ≤ 100)%Z as Hm.
    { unfold m. destruct (clamp (overallProgress pr) >? maxProgressRef h)%Z; lia. }
    split; [exact Hm|]. apply Hreset; cbn [maxProgressRef memo]; [exact Hm|].
    intros dep v [= _ <-]. exact Hm. }
  destruct (memo h) as [[dep v]|] eqn:Em.
  - case_bool_decide.
    + cbn [fst snd]. split; [by eapply Hmemo|]. apply Hreset; [done|].
      intros d w Hw. eapply Hmemo. by rewrite <- Hw.
    + destruct (compute_smoothProgress (overallProgress pr) h). exact Hc.
  - destruct (compute_smoothProgress (overallProgress pr) h). exact Hc.
Qed.

(** Whatever the card is handed (values below 0, above 100, undefined),
    for whatever runs, every percentage it shows lies between 0 and 100. *)
Theorem shown_between_0_and_100 (prs : list Props) :
  Forall (λ v, (0 ≤ v ≤ 100)%Z) (shown prs mount).
Proof.
  assert (∀ h, in_range h → Forall (λ v, (0 ≤ v ≤ 100)%Z) (shown prs h)) as H.
  { induction prs as [|pr prs IH]; intros h Hh; [constructor|].
    cbn [shown]. destruct (render_in_range pr h Hh) as [H1 H2].
    destruct (render pr h) as [v h']. constructor; [exact H1|by apply IH]. }
  apply H. split; [simpl; lia|]. intros dep v [=].
Qed.

(** Rendering again with the same props shows the same percentage and
    leaves the hook cells as they are: only a change of props moves the
    bar. *)
Theorem render_again_same_props (pr : Props) (h : Hooks) :
  render pr (render pr h).2 = render pr h.
Proof.
  assert (∀ h1 v, memo h1 = Some (overallProgress pr, v) →
                  render pr (resetEffect (runId pr) h1)
                  = (v, resetEffect (runId pr) h1)) as Hhit.
  { intros h1 v Hm. unfold render, smoothProgress.
    assert (memo (resetEffect (runId pr) h1) = Some (overallProgress pr, v)) as ->.
    { unfold resetEffect. by case_bool_decide. }
    rewrite bool_decide_eq_true_2 by done. f_equal.
    unfold resetEffect at 1.
    rewrite bool_decide_eq_true_2; [done|].
    unfold resetEffect. by case_bool_decide. }
  unfold render at 2 3, smoothProgress.
  destruct (memo h) as [[dep v]|] eqn:Em.
  - case_bool_decide as Hd.
    + subst dep. cbn [fst snd]. by apply Hhit.
    + unfold compute_smoothProgress. cbn [fst snd]. by apply Hhit.
  - unfold compute_smoothProgress. cbn [fst snd]. by apply Hhit.
Qed.

(** ** The status of a step *)

Lemma find_none_names (l : list ETLStep) (n : string) :
  Forall (λ e, name e ≠ n) l →
  List.find (λ s, bool_decide (name s = n)) l = None.
Proof.
  induction 1 as [|e l He _ IH]; [done|].
  simpl. by rewrite bool_decide_eq_false_2.
Qed.

Lemma find_first_name (l1 l2 : list ETLStep) (e : ETLStep) :
  Forall (λ x, name x ≠ name e) l1 →
  List.find (λ s, bool_decide (name s = name e)) (l1 ++ e :: l2) = Some e.
Proof.
  induction 1 as [|x l1 Hx _ IH]; simpl.
  - by rewrite bool_decide_eq_true_2.
  - by rewrite bool_decide_eq_false_2.
Qed.

Lemma findIndex_absent (x : string) (l : list StepInfo) :
  x ∉ info_name <$> l → findIndex x l = (-1)%Z.
Proof.
  induction l as [|s l IH]; [done|]. rewrite fmap_cons, not_elem_of_cons.
  intros [Hne Hnot]. simpl. rewrite bool_decide_eq_false_2 by done.
  by rewrite (IH Hnot).
Qed.

Lemma findIndex_lookup (x : string) (l : list StepInfo) (i : nat) :
  NoDup (info_name <$> l) → (info_name <$> l) !! i = Some x →
  findIndex x l = Z.of_nat i.
Proof.
  revert i. induction l as [|s l IH]; intros i Hnd Hi; [done|].
  rewrite fmap_cons in Hnd, Hi. apply NoDup_cons in Hnd as [Hs Hnd].
  destruct i as [|i]; simpl in *.
  - injection Hi as <-. by rewrite bool_decide_eq_true_2.
  - rewrite bool_decide_eq_false_2.
    + rewrite (IH i Hnd Hi).
      destruct (Z.ltb_spec (Z.of_nat i) 0); lia.
    + intros <-. apply Hs. by eapply list_elem_of_lookup_2.
Qed.

Lemma step_names_NoDup : NoDup (info_name <$> ETL_STEPS).
Proof. compute_done. Qed.

(** A step's own record decides its status and its message; when several
    records carry the name, the first one does. *)
Theorem getStepStatus_reads_first_record
    (pr : Props) (l1 l2 : list ETLStep) (e : ETLStep)
    (Hsteps : steps pr = (l1 ++ e :: l2)%list)
    (Hfirst : Forall (λ x, name x ≠ name e) l1) :
  getStepStatus pr (name e) = status e
  ∧ getStepMessage pr (name e) = message e.
Proof.
  unfold getStepStatus, getStepMessage.
  by rewrite Hsteps, (find_first_name l1 l2 e Hfirst).
Qed.

Lemma getStepStatus_reads_first_record_witness :
  getStepStatus mapper_failed "mapper" = error
  ∧ getStepMessage mapper_failed "mapper" = Some "no schema".
Proof.
  refine (getStepStatus_reads_first_record mapper_failed
            [step_record "download" completed None] []
            (step_record "mapper" error (Some "no schema")) eq_refl _).
  repeat constructor. discriminate.
Defined.

(** Without a record of its own a step's status is inferred from the
    table: steps before the current one are completed, the current one is
    running (error when the run has failed), later ones are pending.  When
    the current step is not in the table (initialized, completed) every table
    step is pending; a name that is not in the table counts as lying before
    every table step. *)
Theorem getStepStatus_inferred_by_position
    (pr : Props) (stepName : string)
    (Hnone : Forall (λ e, name e ≠ stepName) (steps pr)) :
  let at_current := if bool_decide (run_status pr = "failed") then error else running in
  (∀ i j : nat, step_names !! i = Some stepName →
                step_names !! j = Some (currentStep pr) →
     getStepStatus pr stepName
     = if bool_decide (i < j) then completed
       else if bool_decide (i = j) then at_current else pending)
  ∧ (stepName ∈ step_names → currentStep pr ∉ step_names →
     getStepStatus pr stepName = pending)
  ∧ (stepName ∉ step_names → currentStep pr ∈ step_names →
     getStepStatus pr stepName = completed)
  ∧ (stepName ∉ step_names → currentStep pr ∉ step_names →
     getStepStatus pr stepName = at_current).
Proof.
  intros at_current. unfold getStepStatus. rewrite (find_none_names _ _ Hnone).
  unfold step_names. repeat split.
  - intros i j Hi Hj.
    rewrite (findIndex_lookup _ _ i step_names_NoDup Hi),
            (findIndex_lookup _ _ j step_names_NoDup Hj).
    destruct (Z.ltb_spec (Z.of_nat i) (Z.of_nat j)).
    + rewrite (bool_decide_eq_true_2 (i < j)) by lia. done.
    + rewrite (bool_decide_eq_false_2 (i < j)) by lia.
      destruct (Z.eqb_spec (Z.of_nat i) (Z.of_nat j)).
      * rewrite (bool_decide_eq_true_2 (i = j)) by lia. done.
      * rewrite (bool_decide_eq_false_2 (i = j)) by lia. done.
  - intros [i Hi]%list_elem_of_lookup_1 Hc.
    rewrite (findIndex_lookup _ _ i step_names_NoDup Hi), (findIndex_absent _ _ Hc).
    destruct (Z.ltb_spec (Z.of_nat i) (-1)); [lia|].
    destruct (Z.eqb_spec (Z.of_nat i) (-1)); [lia|done].
  - intros Hs [j Hj]%list_elem_of_lookup_1.
    rewrite (findIndex_lookup _ _ j step_names_NoDup Hj), (findIndex_absent _ _ Hs).
    destruct (Z.ltb_spec (-1) (Z.of_nat j)); [done|lia].
  - intros Hs Hc. by rewrite (findIndex_absent _ _ Hs), (findIndex_absent _ _ Hc).
Qed.

Lemma getStepStatus_inferred_by_position_witness :
  getStepStatus (frame "r" None) "staging" = pending.
Proof.
  refine (proj1 (proj2 (getStepStatus_inferred_by_position
            (frame "r" None) "staging" (Forall_nil_2 _))) _ _).
  - apply (list_elem_of_lookup_2 _ 2). reflexivity.
  - compute_done.
Defined.

End ETLProgressCardMore.

(** * More on the window: approval requests, payloads, the run's identity *)

Module ChatWindowMore.

Import ETLProgressCard ChatWindow ChatWindowSpec Samples ChatWindowFacts.

(** ** Which run a message leaves behind *)

Lemma seen_is_Some (v : Rendered) : seen v = true ↔ is_Some (r_currentRun v).
Proof.
  unfold seen. destruct (r_currentRun v) as [r|]; split; intros H.
  - by exists r.
  - reflexivity.
  - discriminate.
  - by destruct H.
Qed.

(** The run and the latch after a message, branch by branch. *)
Lemma onMessage_run (v : Rendered) (u : Update.t) (s : State) :
  currentRun (onMessage v u s)
  = (if negb (seen v) then currentRun s
     else if streq (Update.type u) "workflow_complete"
     then Patch.spread completion <$> currentRun s
     else if latched v s then currentRun s
     else if streq (Update.type u) "hitl_approval_required" then currentRun s
     else if streq (Update.type u) "hitl_progress" then currentRun s
     else Patch.spread (regular (workflowStatus u) u) <$> currentRun s)
  ∧ workflowCompletedRef (onMessage v u s)
    = (seen v && streq (Update.type u) "workflow_complete")
      || workflowCompletedRef s.
Proof.
  unfold seen, latched.
  destruct (r_currentRun v) as [r|] eqn:Hr;
    [|by rewrite onMessage_no_run].
  assert (is_Some (r_currentRun v)) as Hv by (by exists r).
  cbn [negb andb]. unfold streq at 1 4.
  destruct (decide (Update.type u = "workflow_complete")) as [Ht|Ht].
  { rewrite (bool_decide_eq_true_2 _ Ht). rewrite (onMessage_complete v u s Hv Ht).
    rewrite completeOpenSteps_frame. by cbn. }
  rewrite (bool_decide_eq_false_2 _ Ht). cbn [orb].
  destruct (workflowCompletedRef s) eqn:Href.
  { rewrite (onMessage_latched v u s Hv Ht) by (by left). by cbn. }
  destruct (r_workflowCompleted v) eqn:Hflag.
  { rewrite (onMessage_latched v u s Hv Ht) by (by right). by cbn. }
  cbn [orb]. unfold onMessage. rewrite Hr, Href, Hflag. unfold regular, streq.
  rewrite (bool_decide_eq_false_2 _ Ht). cbn [orb].
  destruct (bool_decide (Update.type u = "hitl_approval_required")); [by cbn|].
  destruct (bool_decide (Update.type u = "hitl_progress"));
    destruct (Update.data u ≫= Data.mappings),
      (Update.data u ≫= Data.transformations), (Update.data u),
      (bool_decide (Update.step u = "mapper")),
      (bool_decide (Update.step u = "transform")),
      (bool_decide (Update.status u = "completed")),
      (bool_decide (Update.type u = "hitl_approval_complete")),
      (bool_decide (Update.type u = "hitl_complete")); by cbn.
Qed.

Lemma workflowStatus_cases (u : Update.t) :
  workflowStatus u = "running" ∨ workflowStatus u = "failed".
Proof.
  unfold workflowStatus.
  destruct (streq (Update.status u) "completed"
            && streq (Update.type u) "workflow_update"); [by left|].
  destruct (streq (Update.status u) "failed" || streq (Update.status u) "error");
    [by right|by left].
Qed.

(** ** The run a window tracks *)

Lemma step_keeps_tracking (runId folderPath : string) (a : Action) (s : State) :
  Tracks runId folderPath s → Tracks runId folderPath (step a s).
Proof.
  intros (r & Hr & H1 & H2 & H3 & H4 & H5 & H6).
  destruct a as [v u| |]; cbn [step].
  - destruct (onMessage_run v u s) as [Erun Eref]. unfold Tracks.
    rewrite Erun, Eref, Hr.
    destruct (negb (seen v)) eqn:Hs.
    { apply negb_true_iff in Hs. rewrite Hs. cbn [andb orb]. by exists r. }
    apply negb_false_iff in Hs. rewrite Hs. cbn [andb].
    destruct (streq (Update.type u) "workflow_complete").
    { eexists. split; [reflexivity|]. cbn. repeat split; auto. }
    cbn [orb]. unfold latched.
    destruct (workflowCompletedRef s) eqn:Href; cbn [orb]; [by exists r|].
    destruct (r_workflowCompleted v); [by exists r|].
    destruct (streq (Update.type u) "hitl_approval_required"); [by exists r|].
    destruct (streq (Update.type u) "hitl_progress"); [by exists r|].
    eexists. split; [reflexivity|]. cbn.
    destruct (workflowStatus_cases u) as [-> | ->]; repeat split; auto; discriminate.
  - unfold Tracks, readyTimerFires. destruct (readyTimers s); [by exists r|].
    cbn. by exists r.
  - unfold Tracks, handleHitlApprovalComplete. cbn. by exists r.
Qed.

Lemma run_keeps_tracking
    (runId folderPath : string) (acts : list Action) (s0 : State) :
  Tracks runId folderPath (run acts (handleGCSWorkflowStarted runId folderPath s0)).
Proof.
  unfold run. generalize (handleGCSWorkflowStarted runId folderPath s0)
    (ltac:(eexists; cbn; repeat split; eauto; discriminate)
      : Tracks runId folderPath (handleGCSWorkflowStarted runId folderPath s0)).
  induction acts as [|a acts IH]; intros st Hst; [exact Hst|].
  cbn [foldl]. apply IH. by apply step_keeps_tracking.
Qed.

(** From the start of a run on, whatever messages, timers and submissions
    follow, the window keeps the run it was started for (same id, folder
    and source type), its status is running, failed or completed and never
    pending or success, it shows completed only with the latch set and
    progress 100, and the progress card stays on screen for that run. *)
Theorem window_keeps_the_run
    (runId folderPath : string) (acts : list Action) (s0 : State) :
  let s := run acts (handleGCSWorkflowStarted runId folderPath s0) in
  Tracks runId folderPath s
  ∧ isWorkflowActive s = true
  ∧ showLandingPage s = false
  ∧ ETLProgressCard.runId <$> progressCardProps s = Some runId.
Proof.
  intros s.
  pose proof (run_keeps_tracking runId folderPath acts s0) as Ht. fold s in Ht.
  split; [exact Ht|].
  destruct Ht as (r & Hr & H1 & H2 & H3 & H4 & H5 & H6).
  assert (isWorkflowActive s = true) as Hact.
  { unfold isWorkflowActive. rewrite Hr, H4. unfold streq.
    rewrite bool_decide_eq_false_2; [by rewrite bool_decide_eq_true_2|].
    destruct H5 as [-> | [-> | ->]]; discriminate. }
  split; [exact Hact|]. unfold showLandingPage, progressCardProps.
  rewrite Hr, Hact. cbn. by rewrite H1.
Qed.

(** ** The approval card *)

Lemma step_keeps_card_hidden (a : Action) (s : State) :
  workflowCompletedRef s = true → showHitlApproval s = false →
  workflowCompletedRef (step a s) = true ∧ showHitlApproval (step a s) = false.
Proof.
  intros Href Hshow. destruct a as [v u| |]; cbn [step].
  - destruct (r_currentRun v) as [r|] eqn:Hr;
      [|by rewrite onMessage_no_run].
    assert (is_Some (r_currentRun v)) as Hv by (by exists r).
    destruct (decide (Update.type u = "workflow_complete")) as [Ht|Ht].
    + rewrite (onMessage_complete v u s Hv Ht), completeOpenSteps_frame. by cbn.
    + rewrite (onMessage_latched v u s Hv Ht) by (by left). by cbn.
  - unfold readyTimerFires. destruct (readyTimers s); by cbn.
  - by cbn.
Qed.

(** Once a [workflow_complete] has been handled the approval card is off
    the screen for good: no later message (an approval request included),
    timer or submission brings it back. *)
Theorem approval_card_gone_after_completion
    (v0 : Rendered) (done : Update.t) (s : State) (acts : list Action)
    (Hrun : is_Some (r_currentRun v0))
    (Hdone : Update.type done = "workflow_complete") :
  approvalCardShown (run acts (onMessage v0 done s)) = false
  ∧ showHitlApproval (run acts (onMessage v0 done s)) = false.
Proof.
  assert (workflowCompletedRef (onMessage v0 done s) = true
          ∧ showHitlApproval (onMessage v0 done s) = false) as H0.
  { rewrite (onMessage_complete v0 done s Hrun Hdone), completeOpenSteps_frame.
    by cbn. }
  assert (showHitlApproval (run acts (onMessage v0 done s)) = false) as H.
  { unfold run. revert H0. generalize (onMessage v0 done s).
    induction acts as [|a acts IH]; intros st [H1 H2]; [exact H2|].
    cbn [foldl]. apply IH. by apply step_keeps_card_hidden. }
  split; [|exact H]. unfold approvalCardShown. by rewrite H.
Qed.

Lemma approval_card_gone_after_completion_witness :
  approvalCardShown
    (run [Message (rendered started)
            (event "hitl_approval_required" "hitl" "waiting" None None);
          ReadyTimer]
       (onMessage (rendered started) workflow_complete started)) = false.
Proof.
  exact (proj1 (approval_card_gone_after_completion (rendered started)
                  workflow_complete started _ (ex_intro _ _ eq_refl) eq_refl)).
Defined.

Lemma onMessage_request (v : Rendered) (u : Update.t) (s : State) :
  is_Some (r_currentRun v) → Update.type u = "hitl_approval_required" →
  workflowCompletedRef s = false → r_workflowCompleted v = false →
  let ms := default [] (Update.data u ≫= Data.mappings) in
  onMessage v u s =
    setReadyTimers (S (readyTimers s))
      (setShowHitlApproval true
         (setHitlMappings ms
            (updateETLStep "hitl" running
               (Some (pretty (length ms) +:+ " mapping(s) awaiting approval")) s))).
Proof.
  intros [r Hr] Ht Href Hflag ms. unfold onMessage.
  rewrite Hr, Href, Hflag. unfold streq. rewrite Ht.
  rewrite (bool_decide_eq_false_2 ("hitl_approval_required" = "workflow_complete"))
    by discriminate.
  rewrite (bool_decide_eq_true_2 ("hitl_approval_required" = "hitl_approval_required"))
    by reflexivity.
  reflexivity.
Qed.

(** An approval request handled before completion stores its candidates
    (none when the payload has no list), raises the approval flag, puts the
    hitl step to running and leaves the run alone; the card itself comes
    on screen when the request's timer fires, and only if there is at
    least one candidate and a current run. *)
Theorem approval_request_opens_card
    (v : Rendered) (u : Update.t) (s : State)
    (Hview : is_Some (r_currentRun v))
    (Htype : Update.type u = "hitl_approval_required")
    (Href : workflowCompletedRef s = false)
    (Hflag : r_workflowCompleted v = false) :
  let ms := default [] (Update.data u ≫= Data.mappings) in
  let s' := onMessage v u s in
  hitlMappings s' = ms
  ∧ showHitlApproval s' = true
  ∧ hitlReady s' = hitlReady s
  ∧ readyTimers s' = S (readyTimers s)
  ∧ currentRun s' = currentRun s
  ∧ Forall2 (λ e e', name e' = name e
                     ∧ (name e = "hitl" → status e' = running)
                     ∧ (name e ≠ "hitl" → e' = e))
            (etlSteps s) (etlSteps s')
  ∧ (approvalCardShown (readyTimerFires s') = true
     ↔ ms ≠ [] ∧ is_Some (currentRun s)).
Proof.
  intros ms s'. unfold s'.
  rewrite (onMessage_request v u s Hview Htype Href Hflag). fold ms.
  split; [done|]. split; [done|]. split; [done|]. split; [done|]. split; [done|].
  split; [apply (updateETLStep_steps "hitl" running)|].
  unfold approvalCardShown, readyTimerFires. cbn.
  rewrite andb_true_iff, bool_decide_eq_true.
  destruct ms as [|m ms'], (currentRun s) as [r|]; cbn; split;
    try (intros [? ?]; try done; try lia; by destruct H0 as [? [=]]);
    try (intros; split; [lia|done]).
Qed.

Lemma approval_request_opens_card_witness :
  approvalCardShown
    (readyTimerFires (onMessage (rendered started) approval_request started))
  = true.
Proof.
  apply (proj2 (proj2 (proj2 (proj2 (proj2 (proj2
          (approval_request_opens_card (rendered started) approval_request
             started (ex_intro _ _ eq_refl) eq_refl eq_refl eq_refl))))))).
  split; [discriminate|by eexists].
Defined.

(** A progress report of the approval step, handled before completion,
    writes running and the reviewed/remaining counts on the hitl record
    (zeros when the payload is missing) and touches neither the run, nor
    the approval cells, nor the latch, nor any other step record.  The
    payload check of the regular path runs before it: a report that names
    step mapper (transform) with status completed and carries a mappings
    (transformations) list replaces the stored list; any other report
    leaves the stored lists as they were. *)
Theorem hitl_progress_writes_hitl_step_and_payload
    (v : Rendered) (u : Update.t) (s : State)
    (Hview : is_Some (r_currentRun v))
    (Htype : Update.type u = "hitl_progress")
    (Href : workflowCompletedRef s = false)
    (Hflag : r_workflowCompleted v = false) :
  let s' := onMessage v u s in
  let d := default Data.empty (Update.data u) in
  let text := pretty (js_or_zero (Data.reviewed d)) +:+ " reviewed, "
              +:+ pretty (js_or_zero (Data.pending d)) +:+ " remaining" in
  currentRun s' = currentRun s
  ∧ hitlMappings s' = hitlMappings s
  ∧ showHitlApproval s' = showHitlApproval s
  ∧ hitlReady s' = hitlReady s
  ∧ readyTimers s' = readyTimers s
  ∧ workflowCompletedRef s' = false
  ∧ Forall2 (λ e e', name e' = name e
                     ∧ (name e = "hitl" →
                        status e' = running ∧ message e' = Some text)
                     ∧ (name e ≠ "hitl" → e' = e))
            (etlSteps s) (etlSteps s')
  ∧ (Update.data u = None → text = "0 reviewed, 0 remaining")
  ∧ workflowCompleted s' = workflowCompleted s
  ∧ pipelineDialogOpen s' = pipelineDialogOpen s
  ∧ workflowMappings s'
    = (if bool_decide (Update.step u = "mapper" ∧ Update.status u = "completed")
       then default (workflowMappings s) (Update.data u ≫= Data.mappings)
       else workflowMappings s)
  ∧ workflowTransformations s'
    = (if bool_decide (Update.step u = "transform" ∧ Update.status u = "completed")
       then default (workflowTransformations s)
              (Update.data u ≫= Data.transformations)
       else workflowTransformations s).
Proof.
  intros s' d text.
  assert (Forall2 (λ e e', name e' = name e
                     ∧ (name e = "hitl" →
                        status e' = running ∧ message e' = Some text)
                     ∧ (name e ≠ "hitl" → e' = e))
            (etlSteps s)
            ((λ e, if bool_decide (name e = "hitl")
                   then with_status running (Some text) e else e) <$> etlSteps s))
    as Hsteps.
  { apply Forall2_fmap_r, Forall_Forall2_diag, Forall_forall. intros e _.
    unfold compose. case_bool_decide; simpl; repeat split; intros; done. }
  destruct Hview as [r Hr].
  unfold s', onMessage. rewrite Hr, Href, Hflag. unfold streq. rewrite Htype.
  rewrite (bool_decide_eq_true_2 ("hitl_progress" = "hitl_progress")) by reflexivity.
  repeat rewrite (bool_decide_eq_false_2 ("hitl_progress" = _)) by discriminate.
  cbn [orb]. fold d. fold text.
  assert (Update.data u = None → text = "0 reviewed, 0 remaining") as Hnone.
  { intros Hd. unfold text, d. rewrite Hd. reflexivity. }
  clearbody text. clear d.
  rewrite !bool_decide_and.
  destruct (Update.data u ≫= Data.mappings),
    (Update.data u ≫= Data.transformations), (Update.data u),
    (bool_decide (Update.step u = "mapper")),
    (bool_decide (Update.step u = "transform")),
    (bool_decide (Update.status u = "completed")); cbn;
    (split; [done|]); (split; [done|]); (split; [done|]); (split; [done|]);
    (split; [done|]); (split; [done|]); (split; [exact Hsteps|]);
    (split; [exact Hnone|]); (split; [done|]); (split; [done|]);
    (split; done).
Qed.

Lemma hitl_progress_writes_hitl_step_and_payload_witness :
  let s' := onMessage (rendered started)
              (event "hitl_progress" "hitl" "running" None None) started in
  currentRun s' = currentRun started
  ∧ (λ e, (name e, status e, message e)) <$> filter (λ e, name e = "hitl") (etlSteps s')
    = [("hitl", running, Some "0 reviewed, 0 remaining")].
Proof.
  cbv zeta. split; [|reflexivity].
  exact (proj1 (hitl_progress_writes_hitl_step_and_payload (rendered started)
                  (event "hitl_progress" "hitl" "running" None None) started
                  (ex_intro _ _ eq_refl) eq_refl eq_refl eq_refl)).
Defined.

(** A progress report that names step mapper with status completed and
    carries a mappings list: the stored mappings change. *)
Lemma hitl_progress_can_store_mappings :
  let u := {| Update.type := "hitl_progress"; Update.step := "mapper";
              Update.status := "completed"; Update.message := None;
              Update.progress := None; Update.error := None;
              Update.data := Some {| Data.mappings := Some batch;
                                     Data.transformations := None;
                                     Data.reviewed := Some 1%Z;
                                     Data.pending := Some 2%Z |} |} in
  let s' := deliver u started in
  workflowMappings started = []
  ∧ workflowMappings s' = batch
  ∧ (λ e, (name e, status e, message e)) <$> filter (λ e, name e = "hitl") (etlSteps s')
    = [("hitl", running, Some "1 reviewed, 2 remaining")].
Proof. done. Qed.

(** ** Payloads *)

(** The mappings and transformations kept for the dropdowns, after a
    message. *)
Lemma onMessage_payload (v : Rendered) (u : Update.t) (s : State) :
  let regular_path :=
    seen v && negb (streq (Update.type u) "workflow_complete")
    && negb (latched v s)
    && negb (streq (Update.type u) "hitl_approval_required") in
  workflowMappings (onMessage v u s)
  = (if regular_path && streq (Update.step u) "mapper"
        && streq (Update.status u) "completed"
     then default (workflowMappings s) (Update.data u ≫= Data.mappings)
     else workflowMappings s)
  ∧ workflowTransformations (onMessage v u s)
    = (if regular_path && streq (Update.step u) "transform"
          && streq (Update.status u) "completed"
       then default (workflowTransformations s)
              (Update.data u ≫= Data.transformations)
       else workflowTransformations s).
Proof.
  unfold seen, latched.
  destruct (r_currentRun v) as [r|] eqn:Hr;
    [|by rewrite onMessage_no_run].
  assert (is_Some (r_currentRun v)) as Hv by (by exists r).
  cbn [negb andb]. unfold streq at 1 2 5 6.
  destruct (decide (Update.type u = "workflow_complete")) as [Ht|Ht].
  { rewrite (bool_decide_eq_true_2 _ Ht). rewrite (onMessage_complete v u s Hv Ht).
    rewrite completeOpenSteps_frame. by cbn. }
  rewrite (bool_decide_eq_false_2 _ Ht). cbn [negb andb].
  destruct (workflowCompletedRef s) eqn:Href.
  { rewrite (onMessage_latched v u s Hv Ht) by (by left). by cbn. }
  destruct (r_workflowCompleted v) eqn:Hflag.
  { rewrite (onMessage_latched v u s Hv Ht) by (by right). by cbn. }
  cbn [orb negb andb]. unfold onMessage. rewrite Hr, Href, Hflag. unfold streq.
  rewrite (bool_decide_eq_false_2 _ Ht). cbn [orb].
  destruct (bool_decide (Update.type u = "hitl_approval_required")); [by cbn|].
  cbn [negb andb].
  destruct (bool_decide (Update.type u = "hitl_progress"));
    destruct (Update.data u ≫= Data.mappings),
      (Update.data u ≫= Data.transformations), (Update.data u),
      (bool_decide (Update.step u = "mapper")),
      (bool_decide (Update.step u = "transform")),
      (bool_decide (Update.status u = "completed")),
      (bool_decide (Update.type u = "hitl_approval_complete")),
      (bool_decide (Update.type u = "hitl_complete")); by cbn.
Qed.

(** The mappings kept for the dropdown change only on a message outside
    the completion and latched paths that reports step mapper completed
    and carries a mappings list, and then they become that list; the same
    holds for the transformations with step transform.  In particular the
    payload of [workflow_complete] is never stored. *)
Theorem payload_stored_only_on_step_completion
    (v : Rendered) (u : Update.t) (s : State) :
  let s' := onMessage v u s in
  (workflowMappings s' ≠ workflowMappings s →
   Update.type u ≠ "workflow_complete"
   ∧ workflowCompletedRef s = false
   ∧ Update.step u = "mapper" ∧ Update.status u = "completed"
   ∧ Update.data u ≫= Data.mappings = Some (workflowMappings s'))
  ∧ (workflowTransformations s' ≠ workflowTransformations s →
     Update.type u ≠ "workflow_complete"
     ∧ workflowCompletedRef s = false
     ∧ Update.step u = "transform" ∧ Update.status u = "completed"
     ∧ Update.data u ≫= Data.transformations = Some (workflowTransformations s'))
  ∧ (Update.type u = "workflow_complete" →
     workflowMappings s' = workflowMappings s
     ∧ workflowTransformations s' = workflowTransformations s).
Proof.
  intros s'. unfold s'. destruct (onMessage_payload v u s) as [Em Et].
  cbv zeta in Em, Et. rewrite Em, Et. unfold latched, streq.
  split; [|split].
  - destruct (seen v); [|done].
    destruct (decide (Update.type u = "workflow_complete")) as [H1|H1];
      [by rewrite (bool_decide_eq_true_2 _ H1)|].
    rewrite (bool_decide_eq_false_2 _ H1).
    destruct (workflowCompletedRef s); [done|].
    destruct (r_workflowCompleted v); [done|].
    destruct (bool_decide (Update.type u = "hitl_approval_required")); [done|].
    cbn [negb andb orb].
    destruct (decide (Update.step u = "mapper")) as [H2|H2];
      [rewrite (bool_decide_eq_true_2 _ H2)|by rewrite (bool_decide_eq_false_2 _ H2)].
    destruct (decide (Update.status u = "completed")) as [H3|H3];
      [rewrite (bool_decide_eq_true_2 _ H3)|by rewrite (bool_decide_eq_false_2 _ H3)].
    cbn [andb]. destruct (Update.data u ≫= Data.mappings); [done|]. by cbn.
  - destruct (seen v); [|done].
    destruct (decide (Update.type u = "workflow_complete")) as [H1|H1];
      [by rewrite (bool_decide_eq_true_2 _ H1)|].
    rewrite (bool_decide_eq_false_2 _ H1).
    destruct (workflowCompletedRef s); [done|].
    destruct (r_workflowCompleted v); [done|].
    destruct (bool_decide (Update.type u = "hitl_approval_required")); [done|].
    cbn [negb andb orb].
    destruct (decide (Update.step u = "transform")) as [H2|H2];
      [rewrite (bool_decide_eq_true_2 _ H2)|by rewrite (bool_decide_eq_false_2 _ H2)].
    destruct (decide (Update.status u = "completed")) as [H3|H3];
      [rewrite (bool_decide_eq_true_2 _ H3)|by rewrite (bool_decide_eq_false_2 _ H3)].
    cbn [andb]. destruct (Update.data u ≫= Data.transformations); [done|]. by cbn.
  - intros H1. rewrite (bool_decide_eq_true_2 _ H1). cbn [negb andb].
    by rewrite !andb_false_r.
Qed.

(** ** A new run *)

(** [handleGCSWorkflowStarted] resets the latch: whatever the window held
    before (a completed run included), the first regular update of the new
    run that reports no failure, handled by the callback of the current
    render, shows the new run running at the event's step and progress. *)
Theorem new_run_follows_updates
    (runId folderPath : string) (u : Update.t) (s : State)
    (Htype : Update.type u = "workflow_update")
    (Hstatus : Update.status u ≠ "failed" ∧ Update.status u ≠ "error") :
  let s' := deliver u (handleGCSWorkflowStarted runId folderPath s) in
  runLevel s' = Some ("running", Update.step u, Update.progress u)
  ∧ Run.run_id <$> currentRun s' = Some runId
  ∧ workflowCompletedRef s' = false.
Proof.
  intros s'. unfold s', deliver.
  destruct (onMessage_run (rendered (handleGCSWorkflowStarted runId folderPath s))
              u (handleGCSWorkflowStarted runId folderPath s)) as [Erun Eref].
  unfold runLevel. rewrite Erun, Eref. unfold seen, latched, streq. rewrite Htype.
  cbn [rendered r_currentRun r_workflowCompleted handleGCSWorkflowStarted
       setCurrentRun setWorkflowCompletedRef setWorkflowCompleted
       setWorkflowTransformations setWorkflowMappings setHitlReady
       setShowHitlApproval setHitlMappings resetETLSteps setETLSteps
       currentRun workflowCompleted workflowCompletedRef negb orb andb].
  repeat rewrite (bool_decide_eq_false_2 ("workflow_update" = _)) by discriminate.
  assert (workflowStatus u = "running") as ->.
  { unfold workflowStatus, streq. destruct Hstatus as [Hf He].
    rewrite (bool_decide_eq_false_2 _ Hf), (bool_decide_eq_false_2 _ He).
    cbn [orb].
    destruct (bool_decide (Update.status u = "completed")
              && bool_decide (Update.type u = "workflow_update")); reflexivity. }
  by cbn.
Qed.

Lemma new_run_follows_updates_witness :
  runLevel (deliver execute_started
              (handleGCSWorkflowStarted "run-2" "bucket/loans" first_done))
  = Some ("running", "execute", Some 40%Z).
Proof.
  refine (proj1 (new_run_follows_updates "run-2" "bucket/loans" execute_started
                   first_done eq_refl _)).
  split; discriminate.
Defined.

(** A ready timer is never cancelled.  One that is still scheduled when a
    new run starts sets the ready flag of the new run when it fires, so the
    next approval request puts its card on screen at once, without waiting
    for its own timer. *)
Theorem ready_timer_outlives_its_run
    (runId folderPath : string) (v : Rendered) (u : Update.t) (s : State)
    (Htimer : 0 < readyTimers s)
    (Hview : is_Some (r_currentRun v))
    (Htype : Update.type u = "hitl_approval_required")
    (Hflag : r_workflowCompleted v = false)
    (Hlist : default [] (Update.data u ≫= Data.mappings) ≠ []) :
  let started := handleGCSWorkflowStarted runId folderPath s in
  readyTimers started = readyTimers s
  ∧ hitlReady started = false
  ∧ hitlReady (readyTimerFires started) = true
  ∧ approvalCardShown (onMessage v u (readyTimerFires started)) = true.
Proof.
  intros st. unfold st.
  assert (readyTimers (handleGCSWorkflowStarted runId folderPath s)
          = readyTimers s) as Et by reflexivity.
  split; [exact Et|]. split; [reflexivity|].
  unfold readyTimerFires. rewrite Et.
  destruct (readyTimers s) as [|n] eqn:En; [lia|].
  split; [reflexivity|].
  rewrite onMessage_request; [|done|done|reflexivity|done].
  unfold approvalCardShown. cbn.
  destruct (default [] (Update.data u ≫= Data.mappings)); [done|].
  cbn. rewrite bool_decide_eq_true_2 by lia. reflexivity.
Qed.

Lemma ready_timer_outlives_its_run_witness :
  approvalCardShown
    (onMessage (rendered started) approval_request
       (readyTimerFires
          (handleGCSWorkflowStarted "run-2" "bucket/loans"
             (onMessage (rendered started) approval_request started))))
  = true.
Proof.
  refine (proj2 (proj2 (proj2
    (ready_timer_outlives_its_run "run-2" "bucket/loans" (rendered started)
       approval_request (onMessage (rendered started) approval_request started)
       _ (ex_intro _ _ eq_refl) eq_refl eq_refl _)))).
  - vm_compute. lia.
  - discriminate.
Defined.

(** ** The approval card in the window *)

(** The submit button of the approval card, wired as the window wires it.
    A click while something is pending or a submission is in flight does
    nothing.  A submission that resolves takes the card off the screen and
    writes completed on the hitl record, without touching the run or the
    latch.  A submission that throws leaves the window as it was and the
    card's cells with the decisions and the spinner off; when an error
    object was thrown the alert is due, and the card's render throws
    exactly when the first truthy value among detail and message is not a
    valid React child. *)
Theorem submit_through_the_window
    (res : HITLApprovalCard.PostResult) (c : HITLApprovalCard.Card) (s : State) :
  let out := submitApprovals res c s in
  (HITLApprovalCard.submitDisabled c = true → out = (c, s))
  ∧ (HITLApprovalCard.submitDisabled c = false →
     res = HITLApprovalCard.Resolved →
     approvalCardShown out.2 = false
     ∧ hitlMappings out.2 = []
     ∧ currentRun out.2 = currentRun s
     ∧ workflowCompletedRef out.2 = workflowCompletedRef s
     ∧ Forall2 (λ e e', name e' = name e
                        ∧ (name e = "hitl" → status e' = completed)
                        ∧ (name e ≠ "hitl" → e' = e))
               (etlSteps s) (etlSteps out.2))
  ∧ (HITLApprovalCard.submitDisabled c = false →
     res ≠ HITLApprovalCard.Resolved →
     out.2 = s
     ∧ HITLApprovalCard.localMappings out.1 = HITLApprovalCard.localMappings c
     ∧ HITLApprovalCard.selectedIds out.1 = HITLApprovalCard.selectedIds c
     ∧ HITLApprovalCard.submitDisabled out.1 = false)
  ∧ (HITLApprovalCard.submitDisabled c = false →
     ∀ detail message, res = HITLApprovalCard.Threw detail message →
     HITLApprovalCard.alertShown out.1 = true
     ∧ (HITLApprovalCard.renderThrows out.1 = true
        ↔ detail = any_object ∨ (truthy detail = false ∧ message = any_object)))
  ∧ (HITLApprovalCard.submitDisabled c = false →
     res = HITLApprovalCard.ThrewNullish →
     HITLApprovalCard.error out.1 = None
     ∧ HITLApprovalCard.renderThrows out.1 = false).
Proof.
  intros out. unfold out, submitApprovals, HITLApprovalCard.clickSubmit.
  split; [by intros ->|]. split; [|split; [|split]].
  - intros -> ->. cbn [HITLApprovalCard.handleSubmit HITLApprovalCard.approvalComplete snd].
    split; [done|]. split; [done|]. split; [done|]. split; [done|].
    apply (updateETLStep_steps "hitl" completed _ (clearHitl s)).
  - intros Hen Hres. rewrite Hen.
    assert (HITLApprovalCard.allReviewed c = true) as Hall.
    { unfold HITLApprovalCard.submitDisabled in Hen.
      apply orb_false_iff in Hen as [_ Hall]. by apply negb_false_iff. }
    destruct res as [|detail message|]; [done| |];
      cbn [HITLApprovalCard.handleSubmit HITLApprovalCard.approvalComplete
           HITLApprovalCard.card_after fst snd];
      (split; [done|]); (split; [done|]); (split; [done|]);
      unfold HITLApprovalCard.submitDisabled, HITLApprovalCard.allReviewed,
        HITLApprovalCard.pendingCount in *; cbn; by rewrite Hall.
  - intros -> detail message ->.
    cbn [HITLApprovalCard.handleSubmit HITLApprovalCard.card_after fst].
    unfold HITLApprovalCard.alertShown, HITLApprovalCard.renderThrows, js_or.
    cbn [HITLApprovalCard.error HITLApprovalCard.setSubmitting
         HITLApprovalCard.setError].
    destruct detail as [|x|x|], message as [|y|y|]; cbn;
      repeat (case_bool_decide; cbn);
      (split; [done|]);
      (split; [try done; intros _; (by left) || (by right)
              |intros [?|[? ?]]; simplify_eq; done]).
  - by intros -> ->.
Qed.

End ChatWindowMore.

(** * The socket hook: one live connection, heartbeat, cleanup *)

Module useWebSocketFacts.

Import useWebSocket useWebSocketSpec.

Lemma inv_alter (base : string) (h : Hook) (b : bool) (f : Socket → Socket)
    (i : nat) :
  (∀ k, url (f k) = url k) →
  (∀ k, only_pings k → only_pings (f k)) →
  (∀ k, sockets h !! i = Some k → cleanup h ≠ Some i → closing_or_closed (f k)) →
  Inv base h → Inv base (with_sockets b (alter f i (sockets h)) h).
Proof.
  intros Hurl Hsent Hstate [A B C D E F].
  split; cbn [with_sockets socketRef cleanup intervals sockets deps closingLogged];
    try done.
  - intros j k. rewrite list_lookup_alter. case_decide as Hij.
    + subst j. intros (k0 & Hk0 & ->)%fmap_Some Hc. by apply Hstate.
    + apply C.
  - intros j Hj. destruct (D j Hj) as (k & r & Hk & Hd & Hr & Hu).
    destruct (decide (i = j)) as [->|Hij].
    + exists (f k), r. rewrite list_lookup_alter_eq, Hk. by rewrite Hurl.
    + exists k, r. by rewrite list_lookup_alter_ne.
  - intros j k. rewrite list_lookup_alter. case_decide as Hij.
    + subst j. intros (k0 & Hk0 & ->)%fmap_Some. apply Hsent. by eapply F.
    + apply F.
Qed.

Lemma inv_initial (base : string) : Inv base initial.
Proof.
  split; cbn; try done.
  - by intros j ?%elem_of_nil.
Qed.

Lemma inv_runCleanup (base : string) (h : Hook) :
  Inv base h → Inv base (runCleanup h) ∧ cleanup (runCleanup h) = None.
Proof.
  intros Hinv. pose proof Hinv as [A B C D E F]. unfold runCleanup.
  destruct (cleanup h) as [i|] eqn:Ec; [|by rewrite Ec].
  split; [|done].
  assert (∀ j k, match sockets h !! i with
                 | Some k0 =>
                     if bool_decide (readyState k0 = OPEN)
                        || bool_decide (readyState k0 = CONNECTING)
                     then alter close i (sockets h) else sockets h
                 | None => sockets h
                 end !! j = Some k →
                 closing_or_closed k ∧ only_pings k) as Hall.
  { intros j k. destruct (sockets h !! i) as [k0|] eqn:Ek.
    - destruct (decide (j = i)) as [->|Hji].
      + intros Hk. pose proof (F i k0 Ek) as Fk0.
        destruct (readyState k0) eqn:Es; simpl in Hk;
          rewrite ?list_lookup_alter_eq, Ek in Hk; simpl in Hk;
          injection Hk as <-;
          (split; [unfold closing_or_closed, close; rewrite ?Es; simpl; auto
                  |unfold only_pings, close; rewrite ?Es; simpl; exact Fk0]).
      + assert (sockets h !! j = Some k → closing_or_closed k ∧ only_pings k) as Hold.
        { intros Hk. split; [eapply C; [done|congruence]|by eapply F]. }
        destruct (bool_decide (readyState k0 = OPEN)
                  || bool_decide (readyState k0 = CONNECTING)); [|done].
        by rewrite list_lookup_alter_ne.
    - intros Hk. destruct (decide (j = i)) as [->|Hji]; [congruence|].
      split; [eapply C; [done|congruence]|by eapply F]. }
  split; cbn [socketRef cleanup intervals sockets deps closingLogged]; try done.
  - intros j [Hne Hin]%list_elem_of_filter. specialize (B j Hin). congruence.
  - intros j k Hk _. by destruct (Hall j k Hk).
  - intros j k Hk. by destruct (Hall j k Hk).
Qed.

Lemma inv_effect (base : string) (runId : option string) (h : Hook) :
  Inv base h → cleanup h = None → Inv base (effect base runId h).
Proof.
  intros [A B C D E F] Hc. rewrite Hc in A. unfold effect.
  destruct (no_run runId) eqn:Hn.
  { split; cbn [socketRef cleanup intervals sockets deps closingLogged].
    - exact A.
    - intros j Hj. specialize (B j Hj). congruence.
    - intros i k Hk _. eapply C; [done|congruence].
    - intros i [=].
    - exact E.
    - exact F. }
  rewrite A. cbn [mbind option_bind].
  split; cbn [socketRef cleanup intervals sockets deps closingLogged]; try done.
  - intros j [->|Hj]%elem_of_cons; [done|]. specialize (B j Hj). congruence.
  - intros j k [[Hlt Hk] | [-> _]]%lookup_snoc_Some Hne; [|done].
    eapply C; [done|congruence].
  - intros j [= <-]. destruct runId as [r|]; [|done]. cbn in Hn.
    eexists _, r. rewrite lookup_app_r, Nat.sub_diag by done. cbn.
    repeat split; try done. by apply bool_decide_eq_false in Hn.
  - intros j k [[Hlt Hk] | [-> <-]]%lookup_snoc_Some; [by eapply F|].
    by constructor.
Qed.

Lemma inv_handle (base : string) (ev : Event) (h : Hook) :
  Inv base h → Inv base (handle base ev h).
Proof.
  intros Hinv. destruct ev as [runId| |i|i|i|i]; cbn [handle].
  - unfold commit. case_bool_decide; [done|].
    destruct (inv_runCleanup base h Hinv) as [H1 H2]. by apply inv_effect.
  - by apply inv_runCleanup.
  - unfold onopen. destruct (sockets h !! i) as [k|] eqn:Ek; [|done].
    case_bool_decide as Hs; [|done].
    apply (inv_alter base h true (set_readyState OPEN) i); try done.
    intros k0 Hk0 Hne. rewrite Ek in Hk0. injection Hk0 as <-.
    destruct (inv_others _ _ Hinv i k Ek Hne) as [H|H]; congruence.
  - unfold onclose. destruct (sockets h !! i) as [k|] eqn:Ek; [|done].
    case_bool_decide as Hs; [done|].
    apply (inv_alter base h false (set_readyState CLOSED) i); try done.
    intros k0 _ _. by right.
  - done.
  - unfold heartbeat. case_bool_decide as Hi; [|done].
    destruct (sockets h !! i) as [k|] eqn:Ek; [|done].
    case_bool_decide as Hs; [|done].
    apply (inv_alter base h (isConnected h) (send "ping") i); try done.
    + intros k0 Hk0. unfold only_pings, send. cbn.
      apply Forall_app. split; [done|]. by constructor.
    + intros k0 _ Hne. destruct Hne. by apply (inv_intervals _ _ Hinv).
Qed.

Lemma inv_life (base : string) (evs : list Event) : Inv base (life base evs).
Proof.
  unfold life. generalize (inv_initial base). generalize initial.
  induction evs as [|ev evs IH]; intros h Hh; [done|].
  cbn [foldl]. apply IH. by apply inv_handle.
Qed.

(** Whatever happens to the hook (renders with any run ids, unmount,
    socket events, ticks), at most one socket is live: every socket other
    than the one [socketRef] points at is closing or closed and has no
    heartbeat; the socket [socketRef] points at was opened for the run id
    of the last effect run, at [base/ws/runId]; and after an effect run
    without a run id there is no current socket and no heartbeat. *)
Theorem one_live_socket (base : string) (evs : list Event) :
  let h := life base evs in
  (∀ i k, sockets h !! i = Some k → socketRef h ≠ Some i →
          (readyState k = CLOSING ∨ readyState k = CLOSED) ∧ i ∉ intervals h)
  ∧ (∀ i, socketRef h = Some i →
          ∃ k r, sockets h !! i = Some k ∧ deps h = Some (Some r) ∧ r ≠ ""
                 ∧ url k = base +:+ "/ws/" +:+ r)
  ∧ (∀ r, deps h = Some r → no_run r = true →
          socketRef h = None ∧ intervals h = []).
Proof.
  intros h. pose proof (inv_life base evs) as Hinv.
  change (Inv base h) in Hinv. clearbody h. destruct Hinv as [A B C D E F].
  split; [|split].
  - intros i k Hk Hne. rewrite A in Hne. split; [by eapply C|].
    intros Hin. by apply Hne, B.
  - intros i Hi. rewrite A in Hi. by apply D.
  - intros r Hd Hn.
    assert (cleanup h = None) as Hc.
    { destruct (cleanup h) as [i|] eqn:Ec; [|done].
      destruct (D i eq_refl) as (k & r' & _ & Hd' & Hr' & _).
      rewrite Hd in Hd'. injection Hd' as ->. cbn in Hn.
      by apply bool_decide_eq_true in Hn. }
    split; [by rewrite A|].
    apply elem_of_nil_inv. intros j Hj. specialize (B j Hj). congruence.
Qed.

(** The effect never finds an open socket to close: its cleanup has always
    run first and has emptied [socketRef], so the line
    'Closing existing WebSocket connection' is never logged. *)
Theorem closing_existing_is_never_logged (base : string) (evs : list Event) :
  closingLogged (life base evs) = 0.
Proof. exact (inv_log _ _ (inv_life base evs)). Qed.

(** After unmount nothing is left running: no current socket, no
    heartbeat, and every socket the hook ever made is closing or closed. *)
Theorem unmount_releases_everything (base : string) (evs : list Event) :
  let h := unmount (life base evs) in
  socketRef h = None
  ∧ intervals h = []
  ∧ Forall (λ k, readyState k = CLOSING ∨ readyState k = CLOSED) (sockets h).
Proof.
  intros h. destruct (inv_runCleanup base _ (inv_life base evs)) as [Hinv Hc].
  change (Inv base h) in Hinv. change (cleanup h = None) in Hc. clearbody h.
  destruct Hinv as [A B C D E F].
  split; [by rewrite A|]. split.
  - apply elem_of_nil_inv. intros j Hj. specialize (B j Hj). congruence.
  - apply Forall_lookup. intros i k Hk. eapply C; [done|]. by rewrite Hc.
Qed.

(** Only pings are ever sent, and a tick sends one only on the open socket
    that [socketRef] points at: the tick of any other socket, or of a
    socket that is not open, changes nothing. *)
Theorem heartbeat_pings_current_open_socket
    (base : string) (evs : list Event) (i : nat) :
  let h := life base evs in
  (∀ j k, sockets h !! j = Some k → Forall (λ m, m = "ping") (sent k))
  ∧ (heartbeat i h = h
     ∨ (socketRef h = Some i
        ∧ ∃ k, sockets h !! i = Some k ∧ readyState k = OPEN
               ∧ sockets (heartbeat i h) !! i = Some (send "ping" k)
               ∧ ∀ j, j ≠ i → sockets (heartbeat i h) !! j = sockets h !! j)).
Proof.
  intros h. pose proof (inv_life base evs) as Hinv.
  change (Inv base h) in Hinv. clearbody h. destruct Hinv as [A B C D E F].
  split; [exact F|]. unfold heartbeat.
  case_bool_decide as Hi; [|by left].
  destruct (sockets h !! i) as [k|] eqn:Ek; [|by left].
  case_bool_decide as Hs; [|by left].
  right. split; [rewrite A; by apply B|].
  exists k. cbn [sockets]. rewrite list_lookup_alter_eq, Ek.
  split; [done|]. split; [done|]. split; [done|].
  intros j Hj. by rewrite list_lookup_alter_ne.
Qed.

(** The connection flag follows the last open or close event of any
    socket, not the current socket: when the socket of an earlier run
    finishes closing after the current one has opened, the flag goes to
    false although the current socket stays open. *)
Theorem isConnected_follows_any_socket
    (h : Hook) (i j : nat) (ki kj : Socket)
    (Hcur : socketRef h = Some j)
    (Hj : sockets h !! j = Some kj)
    (Hopen : readyState kj = OPEN)
    (Hij : i ≠ j)
    (Hi : sockets h !! i = Some ki)
    (Hclosing : readyState ki = CLOSING) :
  isConnected (onclose i h) = false
  ∧ socketRef (onclose i h) = Some j
  ∧ sockets (onclose i h) !! j = Some kj.
Proof.
  unfold onclose. rewrite Hi.
  rewrite bool_decide_eq_false_2 by congruence. cbn.
  split; [done|]. split; [done|]. by rewrite list_lookup_alter_ne.
Qed.

Lemma isConnected_follows_any_socket_witness :
  let h := life "ws://host" [Commit (Some "run-1"); Opened 0;
                             Commit (Some "run-2"); Opened 1] in
  isConnected h = true
  ∧ isConnected (onclose 0 h) = false
  ∧ readyState <$> current (onclose 0 h) = Some OPEN.
Proof.
  cbv zeta. split; [reflexivity|].
  pose proof (isConnected_follows_any_socket
                (life "ws://host" [Commit (Some "run-1"); Opened 0;
                                   Commit (Some "run-2"); Opened 1])
                0 1 _ _ eq_refl eq_refl eq_refl ltac:(discriminate)
                eq_refl eq_refl) as (H1 & H2 & H3).
  split; [exact H1|]. unfold current. rewrite H2. cbn [mbind option_bind].
  rewrite H3. reflexivity.
Defined.

End useWebSocketFacts.

(** * The window and its socket *)

Module WindowSocket.

Import ChatWindow ChatWindowSpec useWebSocket.

Lemma commit_deps (base : string) (runId : option string) (h : Hook) :
  deps (commit base runId h) = Some runId.
Proof.
  unfold commit. case_bool_decide as Hd; [exact Hd|].
  unfold effect. by destruct (no_run runId).
Qed.

(** While a run lasts the window hands the hook the same run id on every
    render, whatever messages, timers and submissions come in, so the
    effect does not run again: the socket opened at the start of the run is
    neither closed nor replaced by the updates it delivers. *)
Theorem socket_is_kept_during_a_run
    (base runId folderPath : string) (acts : list Action) (s0 : State)
    (h : Hook) :
  let s1 := handleGCSWorkflowStarted runId folderPath s0 in
  let s2 := run acts s1 in
  socketRunId s2 = socketRunId s1
  ∧ commit base (socketRunId s2) (commit base (socketRunId s1) h)
    = commit base (socketRunId s1) h.
Proof.
  intros s1 s2.
  assert (socketRunId s2 = socketRunId s1) as E.
  { destruct (ChatWindowMore.run_keeps_tracking runId folderPath acts s0)
      as (r & Hr & Hid & _).
    unfold socketRunId. fold s1 in Hr. fold s2 in Hr. rewrite Hr, Hid.
    reflexivity. }
  split; [exact E|]. rewrite E.
  unfold commit at 1. by rewrite commit_deps, bool_decide_eq_true_2.
Qed.

End WindowSocket.
